(** * PDF search engine core of [app.py]: a shallow embedding and its properties

    The development follows the class [PDFSearcher] of [src/app.py]:

    - Python strings and the [str] methods the searcher calls;
    - [re.escape], and a fragment of the pattern language of [re.search];
    - [search_in_filename], [search_in_content], [extract_text_from_pdf];
    - the scan loop and the final sort of [search_pdfs], run against an
      explicit file system and recording every access to it.

    Text is modelled over the ASCII range: a Python [str] is a list of
    characters, [str.lower] folds [A]-[Z], and white space is what
    [str.isspace] accepts there. *)

From Stdlib Require Import Ascii String List ZArith Bool Arith Lia.
From Stdlib Require Import Permutation Sorted.
Import ListNotations.

Set Implicit Arguments.

(** ** Python strings *)

Definition str := list ascii.

(** A string literal of the source. *)
Definition py (s : string) : str := list_ascii_of_string s.

Definition is_empty {A : Type} (l : list A) : bool :=
  match l with
  | [] => true
  | _ :: _ => false
  end.

Module PyStr.

Definition code (c : ascii) : nat := nat_of_ascii c.

(** The line feed. *)
Definition newline : ascii := ascii_of_nat 10.

(** [str.isspace] on one character: TAB, LF, VT, FF, CR, the separators
    FS, GS, RS, US, and the space. *)
Definition isspace (c : ascii) : bool :=
  ((9 <=? code c) && (code c <=? 13)) || ((28 <=? code c) && (code c <=? 32)).

Definition isupper (c : ascii) : bool :=
  (65 <=? code c) && (code c <=? 90).

Definition isalnum (c : ascii) : bool :=
  ((48 <=? code c) && (code c <=? 57))
  || ((65 <=? code c) && (code c <=? 90))
  || ((97 <=? code c) && (code c <=? 122)).

Definition lower_char (c : ascii) : ascii :=
  if isupper c then ascii_of_nat (code c + 32) else c.

(** [s.lower()] *)
Definition lower (s : str) : str := map lower_char s.

Fixpoint lstrip (s : str) : str :=
  match s with
  | [] => []
  | c :: s' => if isspace c then lstrip s' else s
  end.

Definition rstrip (s : str) : str := rev (lstrip (rev s)).

(** [s.strip()] *)
Definition strip (s : str) : str := rstrip (lstrip s).

Fixpoint startswith (s t : str) : bool :=
  match t, s with
  | [], _ => true
  | _ :: _, [] => false
  | d :: t', c :: s' => Ascii.eqb c d && startswith s' t'
  end.

(** [t in s] *)
Fixpoint contains (t s : str) : bool :=
  startswith s t
  || match s with
     | [] => false
     | _ :: s' => contains t s'
     end.

(** [s.replace(old, new)] for a one-character [old]. *)
Definition replace (old : ascii) (new : str) (s : str) : str :=
  flat_map (fun c => if Ascii.eqb c old then new else [c]) s.

End PyStr.

(** ** Exceptions *)

(** The exceptions the searcher meets.  [re.error] is not among them: it
    is an outcome of [re.search] that its caller handles on the spot. *)
Inductive exn :=
| FileNotFoundError
| OSError
| PdfReadError
| OverflowError
| RecursionError.

(** How a piece of code ends: with a value, or with an exception. *)
Inductive outcome (A : Type) :=
| Return (a : A)
| Raise (e : exn).

Arguments Return {A} a.
Arguments Raise {A} e.

(** ** The [re] module *)

(** What one call [re.search(pattern, text, flags)] does: a match object,
    [None], [re.error] raised, or another exception raised (compiling a
    pattern can end in [OverflowError] or [RecursionError], which are no
    [re.error]). *)
Inductive re_outcome :=
| ReMatch
| ReNoMatch
| ReError
| ReRaise (e : exn).

(** The searcher passes [re.IGNORECASE] or [0]: the flag is a boolean. *)
Definition engine := str -> str -> bool -> re_outcome.

Module Re.

(** [re.escape]: a backslash before each character of
    [_special_chars_map], that is [()[]{}?*+-|^$\.&~#] and the white
    space characters space, TAB, LF, CR, VT, FF. *)
Definition special_chars : str :=
  py "()[]{}?*+-|^$\.&~# " ++ map ascii_of_nat [9; 10; 13; 11; 12].

Definition is_special (c : ascii) : bool :=
  existsb (Ascii.eqb c) special_chars.

Definition escape (s : str) : str :=
  flat_map (fun c => if is_special c then ["\"%char; c] else [c]) s.

(** *** A fragment of the pattern language

    Patterns that are a sequence of atoms, each repeated at most by one
    of [?], [*], [+]: a plain character, [.], an escaped punctuation
    character, [\s], or a set [[...]] listing characters and [\s] (a
    hyphen only in first place).  Groups, alternation, anchors, counted
    and lazy repetition, ranges, negated sets and the other escapes are
    outside the fragment. *)

Inductive set_item := CChar (c : ascii) | CSpace.

Inductive atom :=
| ALit (c : ascii)
| AAny
| ASpace
| ASet (items : list set_item).

Inductive quant := QOne | QOpt | QStar | QPlus.

Definition piece := (atom * quant)%type.

(** Where the reader of a pattern stands: between atoms, after a
    backslash, inside a set, after a backslash inside a set. *)
Inductive pmode :=
| PNormal
| PEscape
| PSet (items : list set_item)
| PSetEscape (items : list set_item).

(** The pieces read so far, last one first, and the mode. *)
Definition pstate := (list piece * pmode)%type.

Definition is_quant (c : ascii) : bool :=
  Ascii.eqb c "*" || Ascii.eqb c "+" || Ascii.eqb c "?".

Definition quant_of (c : ascii) : quant :=
  if Ascii.eqb c "*" then QStar
  else if Ascii.eqb c "+" then QPlus
  else QOpt.

(** Characters that are not plain outside a set. *)
Definition is_meta (c : ascii) : bool :=
  existsb (Ascii.eqb c) (py ".^$*+?{}[]\|()").

Definition step (st : pstate) (c : ascii) : option pstate :=
  let '(done, mode) := st in
  match mode with
  | PNormal =>
      if Ascii.eqb c "\" then Some (done, PEscape)
      else if Ascii.eqb c "[" then Some (done, PSet [])
      else if Ascii.eqb c "." then Some ((AAny, QOne) :: done, PNormal)
      else if is_quant c then
        match done with
        | (a, QOne) :: done' => Some ((a, quant_of c) :: done', PNormal)
        | _ => None
        end
      else if is_meta c then None
      else Some ((ALit c, QOne) :: done, PNormal)
  | PEscape =>
      if Ascii.eqb c "s" then Some ((ASpace, QOne) :: done, PNormal)
      else if PyStr.isalnum c then None
      else Some ((ALit c, QOne) :: done, PNormal)
  | PSet items =>
      if Ascii.eqb c "]" then
        match items with
        | [] => None
        | _ :: _ => Some ((ASet (rev items), QOne) :: done, PNormal)
        end
      else if Ascii.eqb c "\" then Some (done, PSetEscape items)
      else if Ascii.eqb c "-" then
        match items with
        | [] => Some (done, PSet [CChar c])
        | _ :: _ => None
        end
      else if Ascii.eqb c "^" || Ascii.eqb c "[" then None
      else Some (done, PSet (CChar c :: items))
  | PSetEscape items =>
      if Ascii.eqb c "s" then Some (done, PSet (CSpace :: items))
      else if PyStr.isalnum c then None
      else Some (done, PSet (CChar c :: items))
  end.

Fixpoint read (st : pstate) (p : str) : option pstate :=
  match p with
  | [] => Some st
  | c :: p' =>
      match step st c with
      | Some st' => read st' p'
      | None => None
      end
  end.

(** The pieces of a pattern of the fragment, in order. *)
Definition parse (p : str) : option (list piece) :=
  match read ([], PNormal) p with
  | Some (done, PNormal) => Some (rev done)
  | _ => None
  end.

(** *** Matching *)

Definition chr_eq (ignorecase : bool) (c d : ascii) : bool :=
  if ignorecase then Ascii.eqb (PyStr.lower_char c) (PyStr.lower_char d)
  else Ascii.eqb c d.

Definition item_ok (ignorecase : bool) (it : set_item) (d : ascii) : bool :=
  match it with
  | CChar c => chr_eq ignorecase c d
  | CSpace => PyStr.isspace d
  end.

Definition atom_ok (ignorecase : bool) (a : atom) (d : ascii) : bool :=
  match a with
  | ALit c => chr_eq ignorecase c d
  | AAny => negb (Ascii.eqb d PyStr.newline)
  | ASpace => PyStr.isspace d
  | ASet items => existsb (fun it => item_ok ignorecase it d) items
  end.

(** Zero or more characters accepted by [ok], then [k] on the rest. *)
Fixpoint many (ok : ascii -> bool) (k : str -> bool) (s : str) : bool :=
  k s
  || match s with
     | [] => false
     | d :: s' => ok d && many ok k s'
     end.

Definition one (ok : ascii -> bool) (k : str -> bool) (s : str) : bool :=
  match s with
  | [] => false
  | d :: s' => ok d && k s'
  end.

(** Do the pieces match a prefix of [s]? *)
Fixpoint match_here (ignorecase : bool) (r : list piece) (s : str) : bool :=
  match r with
  | [] => true
  | (a, q) :: r' =>
      let ok := atom_ok ignorecase a in
      let k := match_here ignorecase r' in
      match q with
      | QOne => one ok k s
      | QOpt => k s || one ok k s
      | QStar => many ok k s
      | QPlus => one ok (many ok k) s
      end
  end.

(** Do the pieces match somewhere in [s]? *)
Fixpoint search_from (ignorecase : bool) (r : list piece) (s : str) : bool :=
  match_here ignorecase r s
  || match s with
     | [] => false
     | _ :: s' => search_from ignorecase r s'
     end.

(** [re.search] on the fragment.  A pattern that starts with [*], [+] or
    [?] has nothing to repeat: [re.error].  [None] is a pattern outside
    the fragment, about which nothing is said. *)
Definition fragment (pattern text : str) (ignorecase : bool)
  : option re_outcome :=
  match pattern with
  | c :: _ =>
      if is_quant c then Some ReError
      else
        match parse pattern with
        | Some r => Some (if search_from ignorecase r text then ReMatch else ReNoMatch)
        | None => None
        end
  | [] => Some ReMatch
  end.

(** An engine is Python's as far as the fragment goes. *)
Definition agrees (re_search : engine) : Prop :=
  forall pattern text ignorecase o,
    fragment pattern text ignorecase = Some o ->
    re_search pattern text ignorecase = o.

(** The fragment run as an engine, [re.error] elsewhere: one engine
    that agrees. *)
Definition fragment_engine : engine :=
  fun pattern text ignorecase =>
    match fragment pattern text ignorecase with
    | Some o => o
    | None => ReError
    end.

End Re.

(** ** The searcher *)

(** The three named terms of a query. *)
Inductive field := Expediente | Sello | Caratula.

Definition field_eq_dec (a b : field) : {a = b} + {a <> b}.
Proof. decide equality. Defined.

Definition field_mem (k : field) (l : list field) : bool :=
  if in_dec field_eq_dec k l then true else false.

(** The attributes [__init__] reads from the configuration. *)
Record PDFSearcher := {
  search_directory : str;
  case_sensitive : bool;
  search_subdirectories : bool;
  max_results : Z
}.

(** A [dict] of terms, in insertion order. *)
Definition terms := list (field * str).

(** [x.lower() if not self.case_sensitive else x] *)
Definition fold_case (self : PDFSearcher) (x : str) : str :=
  if negb (case_sensitive self) then PyStr.lower x else x.

(** [search_in_filename]: the loop appends [term_type] to [matches]. *)
Definition search_in_filename (self : PDFSearcher) (filename : str)
    (search_terms : terms) : list field :=
  let filename_search := fold_case self filename in
  fold_left
    (fun matches '(term_type, term_value) =>
       if negb (is_empty term_value) then
         let term_search := fold_case self term_value in
         if PyStr.contains term_search filename_search
         then matches ++ [term_type]
         else matches
       else matches)
    search_terms [].

(** The list [patterns] of [search_in_content]. *)
Definition patterns (term_search : str) : list str :=
  [ term_search;
    Re.escape term_search;
    PyStr.replace "-" (py "[-\s]?") term_search;
    PyStr.replace "/" (py "[/\s]?") term_search;
    PyStr.replace " " (py "\s+") term_search ].

Section Content.

(** [re.search], as the interpreter provides it. *)
Variable re_search : engine.

(** The inner loop [for pattern in patterns] of [search_in_content]:
    the patterns handed to [re.search], in order, and how the loop ends.
    A match sets [found] and breaks out of the loop; [None] goes on to
    the next pattern, and so does [re.error], which [except re.error]
    catches; any other exception leaves the loop. *)
Fixpoint try_patterns (ps : list str) (content : str) (ignorecase : bool)
  : list str * outcome bool :=
  match ps with
  | [] => ([], Return false)
  | pattern :: ps' =>
      match re_search pattern content ignorecase with
      | ReMatch => ([pattern], Return true)
      | ReNoMatch | ReError =>
          let '(tried, found) := try_patterns ps' content ignorecase in
          (pattern :: tried, found)
      | ReRaise e => ([pattern], Raise e)
      end
  end.

(** The outer loop [for term_type, term_value in search_terms.items()],
    from the [matches] gathered so far: an exception that leaves the
    inner loop leaves this one too. *)
Fixpoint content_loop (self : PDFSearcher) (content : str)
    (items : terms) (matches : list field) : outcome (list field) :=
  match items with
  | [] => Return matches
  | (term_type, term_value) :: items' =>
      if negb (is_empty term_value) then
        let term_search := fold_case self term_value in
        match try_patterns (patterns term_search) content
                (negb (case_sensitive self)) with
        | (_, Return found) =>
            content_loop self content items'
              (if found then matches ++ [term_type] else matches)
        | (_, Raise e) => Raise e
        end
      else content_loop self content items' matches
  end.

(** [search_in_content]: the list of matched fields, unless [re.search]
    raised something else than [re.error], which the function lets
    through to its caller. *)
Definition search_in_content (self : PDFSearcher) (content : str)
    (search_terms : terms) : outcome (list field) :=
  content_loop self content search_terms [].

End Content.

(** ** The file system and the accesses to it *)

Record stat_result := { st_size : Z; st_mtime : Z }.

(** One path yielded by [glob]: its pure parts ([name], [str(path)],
    [relative_to(search_path)]) and what the file system answers for it.
    [pdf_pages] is [None] when opening or parsing the file fails; a page is
    [None] when its [extract_text()] raises, and the empty text when it
    returns nothing.  [file_stat] is [None] when
    [stat()] raises.  [st_mtime] is a finite float of which the searcher
    uses the order only; it is an integer here. *)
Record pdf_file := {
  file_name : str;
  file_path : str;
  file_relative : str;
  pdf_pages : option (list (option str));
  file_stat : option stat_result
}.

Record filesystem := {
  root_exists : bool;
  rglob_pdf : list pdf_file;
  glob_pdf : list pdf_file
}.

Inductive event :=
| EvExists
| EvGlob (recursive : bool)
| EvOpenPdf (path : str)
| EvStat (path : str).

(** A computation: the accesses it made, and how it ended. *)
Definition M (A : Type) : Type := (list event * outcome A)%type.

Definition ret {A} (a : A) : M A := ([], Return a).
Definition raise {A} (e : exn) : M A := ([], Raise e).
Definition tell (ev : event) : M unit := ([ev], Return tt).

Definition bind {A B} (m : M A) (k : A -> M B) : M B :=
  match m with
  | (tr, Return a) => let '(tr', o) := k a in (tr ++ tr', o)
  | (tr, Raise e) => (tr, Raise e)
  end.

Notation "x <- m ;; k" := (bind m (fun x => k))
  (at level 61, m at next level, right associativity).
Notation "m ;;; k" := (bind m (fun _ => k))
  (at level 61, right associativity).

(** [try: m except Exception: handler] *)
Definition try_except {A} (m : M A) (handler : exn -> M A) : M A :=
  match m with
  | (tr, Return a) => (tr, Return a)
  | (tr, Raise e) => let '(tr', o) := handler e in (tr ++ tr', o)
  end.

(** [pdf_file.stat()] *)
Definition stat (f : pdf_file) : M stat_result :=
  tell (EvStat (file_path f)) ;;;
  match file_stat f with
  | Some st => ret st
  | None => raise OSError
  end.

(** The loop over the pages of [extract_text_from_pdf]: [text] grows by
    each non-empty page text and a newline. *)
Fixpoint read_pages (pages : list (option str)) (text : str) : outcome str :=
  match pages with
  | [] => Return text
  | None :: _ => Raise PdfReadError
  | Some page_text :: pages' =>
      if negb (is_empty page_text)
      then read_pages pages' (text ++ page_text ++ [PyStr.newline])
      else read_pages pages' text
  end.

(** The body of the [try] of [extract_text_from_pdf]. *)
Definition read_pdf (self : PDFSearcher) (f : pdf_file) : M str :=
  tell (EvOpenPdf (file_path f)) ;;;
  match pdf_pages f with
  | None => raise PdfReadError
  | Some pages =>
      (* max_pages = min(len(pdf_reader.pages), 5) *)
      match read_pages (firstn 5 pages) [] with
      | Return text => ret (fold_case self text)
      | Raise e => raise e
      end
  end.

(** [extract_text_from_pdf]: any exception is logged and the empty string
    returned. *)
Definition extract_text_from_pdf (self : PDFSearcher) (f : pdf_file) : M str :=
  try_except (read_pdf self f) (fun _ => ret []).

(** The text the extractor returns for a file. *)
Definition pdf_text (self : PDFSearcher) (f : pdf_file) : str :=
  match snd (extract_text_from_pdf self f) with
  | Return text => text
  | Raise _ => []
  end.

(** ** Results and their order *)

Record search_result := {
  filename : str;
  path : str;
  relative_path : str;
  matches : list field;
  filename_matches : list field;
  content_matches : list field;
  size : Z;
  modified : Z;
  relevance_score : nat
}.

(** [(a.relevance_score, a.modified) < (b.relevance_score, b.modified)],
    the comparison of the two key tuples. *)
Definition key_ltb (a b : search_result) : bool :=
  (relevance_score a <? relevance_score b)
  || ((relevance_score a =? relevance_score b) && (modified a <? modified b)%Z).

(** [results.sort(key=..., reverse=True)]: a stable sort, greatest key
    first, which keeps the order of results with equal keys. *)
Fixpoint insert_desc (x : search_result) (l : list search_result)
  : list search_result :=
  match l with
  | [] => [x]
  | y :: l' => if key_ltb x y then y :: insert_desc x l' else x :: l
  end.

Definition sort_results (l : list search_result) : list search_result :=
  fold_right insert_desc [] l.

(** ** [search_pdfs] *)

Section Search.

Variable re_search : engine.
Variable self : PDFSearcher.
Variable fs : filesystem.

(** Steps a and b of the loop body: the file name is always matched,
    the content only [if not filename_matches or match_all]. *)
Definition match_file (f : pdf_file) (search_terms : terms)
    (match_all : bool) : M (list field * list field) :=
  let fn_matches := search_in_filename self (file_name f) search_terms in
  if is_empty fn_matches || match_all then
    content <- extract_text_from_pdf self f ;;
    match search_in_content re_search self content search_terms with
    | Return ct_matches => ret (fn_matches, ct_matches)
    | Raise e => raise e
    end
  else ret (fn_matches, []).

(** [list(set(filename_matches + content_matches))]: the distinct
    fields; the order a Python set lists them in is not specified, and
    nothing below depends on it. *)
Definition all_matches_of (fn_matches ct_matches : list field) : list field :=
  nodup field_eq_dec (fn_matches ++ ct_matches).

Definition should_include (search_terms : terms) (match_all : bool)
    (all_matches : list field) : bool :=
  if match_all then
    (* required_matches.issubset(found_matches) *)
    forallb (fun k => field_mem k all_matches) (map fst search_terms)
  else 0 <? length all_matches.

(** The body of the [try] inside the loop: [Some] result to append, or
    [None]. *)
Definition process_file (f : pdf_file) (search_terms : terms)
    (match_all : bool) : M (option search_result) :=
  found <- match_file f search_terms match_all ;;
  let '(fn_matches, ct_matches) := found in
  let all_matches := all_matches_of fn_matches ct_matches in
  if should_include search_terms match_all all_matches then
    st1 <- stat f ;;
    st2 <- stat f ;;
    ret (Some {| filename := file_name f;
                 path := file_path f;
                 relative_path := file_relative f;
                 matches := all_matches;
                 filename_matches := fn_matches;
                 content_matches := ct_matches;
                 size := st_size st1;
                 modified := st_mtime st2;
                 relevance_score := length all_matches |})
  else ret None.

(** The loop [for i, pdf_file in enumerate(pdf_files)]: [break] once
    [len(results) >= self.max_results]; an exception of the body is
    logged and the loop goes on with the next file. *)
Fixpoint scan (pdf_files : list pdf_file) (search_terms : terms)
    (match_all : bool) (results : list search_result)
  : list event * list search_result :=
  match pdf_files with
  | [] => ([], results)
  | f :: rest =>
      if (max_results self <=? Z.of_nat (length results))%Z then ([], results)
      else
        match process_file f search_terms match_all with
        | (tr, Return (Some result)) =>
            let '(tr', out) := scan rest search_terms match_all (results ++ [result]) in
            (tr ++ tr', out)
        | (tr, Return None) | (tr, Raise _) =>
            let '(tr', out) := scan rest search_terms match_all results in
            (tr ++ tr', out)
        end
  end.

(** The dict of stripped terms with the empty ones filtered out. *)
Definition search_terms_of (expediente sello caratula : str) : terms :=
  filter (fun kv => negb (is_empty (snd kv)))
    [ (Expediente, PyStr.strip expediente);
      (Sello, PyStr.strip sello);
      (Caratula, PyStr.strip caratula) ].

Definition search_pdfs (expediente sello caratula : str) (match_all : bool)
  : M (list search_result) :=
  let search_terms := search_terms_of expediente sello caratula in
  if is_empty search_terms then ret []
  else
    tell EvExists ;;;
    if negb (root_exists fs) then raise FileNotFoundError
    else
      tell (EvGlob (search_subdirectories self)) ;;;
      let pdf_files :=
        if search_subdirectories self then rglob_pdf fs else glob_pdf fs in
      let '(tr, results) := scan pdf_files search_terms match_all [] in
      (tr, Return (sort_results results)).

End Search.

(** ** What one file contributes, without the accesses *)

Section PerFile.

Variable re_search : engine.
Variable self : PDFSearcher.

(** The test [not filename_matches or match_all]. *)
Definition extracts (f : pdf_file) (search_terms : terms) (match_all : bool)
  : bool :=
  is_empty (search_in_filename self (file_name f) search_terms) || match_all.

(** How matching the content of a file ends, when it is matched at
    all. *)
Definition content_outcome (f : pdf_file) (search_terms : terms)
    (match_all : bool) : outcome (list field) :=
  if extracts f search_terms match_all
  then search_in_content re_search self (pdf_text self f) search_terms
  else Return [].

Definition content_matches_of (f : pdf_file) (search_terms : terms)
    (match_all : bool) : list field :=
  match content_outcome f search_terms match_all with
  | Return ct_matches => ct_matches
  | Raise _ => []
  end.

Definition matches_of (f : pdf_file) (search_terms : terms)
    (match_all : bool) : list field :=
  all_matches_of (search_in_filename self (file_name f) search_terms)
    (content_matches_of f search_terms match_all).

Definition included (f : pdf_file) (search_terms : terms) (match_all : bool)
  : bool :=
  should_include search_terms match_all (matches_of f search_terms match_all).

Definition result_of (f : pdf_file) (search_terms : terms)
    (match_all : bool) (st : stat_result) : search_result :=
  {| filename := file_name f;
     path := file_path f;
     relative_path := file_relative f;
     matches := matches_of f search_terms match_all;
     filename_matches := search_in_filename self (file_name f) search_terms;
     content_matches := content_matches_of f search_terms match_all;
     size := st_size st;
     modified := st_mtime st;
     relevance_score := length (matches_of f search_terms match_all) |}.

Definition open_events (f : pdf_file) (search_terms : terms)
    (match_all : bool) : list event :=
  if extracts f search_terms match_all then [EvOpenPdf (file_path f)] else [].

End PerFile.

(** The result a file adds to the list, if any: matching its content
    must not raise, it must be included and its [stat()] must answer. *)
Definition contribution (re_search : engine) (self : PDFSearcher)
    (f : pdf_file) (search_terms : terms) (match_all : bool)
  : option search_result :=
  match content_outcome re_search self f search_terms match_all with
  | Raise _ => None
  | Return _ =>
      if included re_search self f search_terms match_all
      then option_map (result_of re_search self f search_terms match_all)
             (file_stat f)
      else None
  end.

Definition append_contribution (results : list search_result)
    (c : option search_result) : list search_result :=
  match c with
  | Some r => results ++ [r]
  | None => results
  end.

Definition cap_reached (self : PDFSearcher) (results : list search_result)
  : bool :=
  (max_results self <=? Z.of_nat (length results))%Z.

(** The order the sort leaves two results in: the first has the greater
    score, or the same score and a modification time at least as late. *)
Definition ranked_before (a b : search_result) : Prop :=
  relevance_score a > relevance_score b
  \/ (relevance_score a = relevance_score b /\ (modified a >= modified b)%Z).

(** The list [pdf_files] of [search_pdfs]. *)
Definition pdf_files_of (self : PDFSearcher) (fs : filesystem) : list pdf_file :=
  if search_subdirectories self then rglob_pdf fs else glob_pdf fs.

Definition filename_hit (self : PDFSearcher) (filename : str) (kv : field * str)
  : bool :=
  negb (is_empty (snd kv))
  && PyStr.contains (fold_case self (snd kv)) (fold_case self filename).

(** How the patterns of one term end on a content. *)
Definition term_outcome (re_search : engine) (self : PDFSearcher)
    (content : str) (term_value : str) : outcome bool :=
  snd (try_patterns re_search (patterns (fold_case self term_value)) content
         (negb (case_sensitive self))).

Definition content_hit (re_search : engine) (self : PDFSearcher) (content : str)
    (kv : field * str) : bool :=
  negb (is_empty (snd kv))
  && match term_outcome re_search self content (snd kv) with
     | Return found => found
     | Raise _ => false
     end.

(** The first exception among the terms, if any. *)
Fixpoint first_raise (re_search : engine) (self : PDFSearcher) (content : str)
    (items : terms) : option exn :=
  match items with
  | [] => None
  | (_, term_value) :: items' =>
      if negb (is_empty term_value) then
        match term_outcome re_search self content term_value with
        | Raise e => Some e
        | Return _ => first_raise re_search self content items'
        end
      else first_raise re_search self content items'
  end.

(** Every pattern the content matcher would build for these terms is in
    the fragment. *)
Definition covered (self : PDFSearcher) (content : str) (search_terms : terms)
  : bool :=
  forallb
    (fun kv =>
       is_empty (snd kv)
       || forallb
            (fun pattern =>
               match Re.fragment pattern content (negb (case_sensitive self)) with
               | Some _ => true
               | None => false
               end)
            (patterns (fold_case self (snd kv))))
    search_terms.

(** [term.replace('-', '')] *)
Definition delete_hyphens (term : str) : str := PyStr.replace "-" [] term.

(** A hyphen that is neither the first nor the last character. *)
Definition internal_hyphen (term : str) : bool :=
  match term with
  | [] => false
  | _ :: rest => existsb (Ascii.eqb "-") (removelast rest)
  end.

(** No character of the term is special in a pattern (outside a set). *)
Definition plain (term : str) : bool :=
  forallb (fun c => negb (Re.is_meta c)) term.

(** The pieces of the hyphen variant of a plain term: a hyphen becomes
    the optional set [[-\s]?], any other character stands for itself. *)
Definition hyphen_piece (c : ascii) : Re.piece :=
  if Ascii.eqb c "-"
  then (Re.ASet [Re.CChar "-"; Re.CSpace], Re.QOpt)
  else (Re.ALit c, Re.QOne).

Definition hyphen_pieces (term_search : str) : list Re.piece :=
  map hyphen_piece term_search.

(** Case analysis on the 256 characters. *)
Ltac each_ascii c := destruct c as [[] [] [] [] [] [] [] []].

(** ** A pattern Python refuses to compile *)

(** The number a run of decimal digits writes, after [acc]. *)
Fixpoint decimal (digits : str) (acc : Z) : option Z :=
  match digits with
  | [] => Some acc
  | d :: digits' =>
      if (48 <=? PyStr.code d) && (PyStr.code d <=? 57)
      then decimal digits' (10 * acc + Z.of_nat (PyStr.code d - 48))
      else None
  end.

(** A pattern [c{n}], a plain character and a repetition count of [2^32]
    or more, written with at most 640 digits (a longer run [int()] may
    refuse to convert).  Compiling it ends in [OverflowError] (the
    repetition number is too large), which is no [re.error]. *)
Definition too_many_repeats (pattern : str) : bool :=
  match pattern with
  | c :: brace :: rest =>
      negb (Re.is_meta c) && Ascii.eqb brace "{"
      && match rev rest with
         | close :: rdigits =>
             Ascii.eqb close "}" && negb (is_empty rdigits)
             && (length rdigits <=? 640)
             && match decimal (rev rdigits) 0 with
                | Some n => (4294967296 <=? n)%Z
                | None => false
                end
         | [] => false
         end
  | _ => false
  end.


(** One engine that agrees with the fragment and refuses those
    patterns. *)
Definition refusing_engine : engine :=
  fun pattern text ignorecase =>
    if too_many_repeats pattern then ReRaise OverflowError
    else Re.fragment_engine pattern text ignorecase.

(** [re.search] goes on to the next pattern: no match, or [re.error]. *)
Definition goes_on (re_search : engine) (content : str) (ignorecase : bool)
    (pattern : str) : Prop :=
  re_search pattern content ignorecase = ReNoMatch
  \/ re_search pattern content ignorecase = ReError.

(** ** Sample inputs *)

Module Sample.

Definition searcher (cap : Z) (sensitive : bool) : PDFSearcher :=
  {| search_directory := py "./pdfs";
     case_sensitive := sensitive;
     search_subdirectories := true;
     max_results := cap |}.

(** The configuration with every fallback value. *)
Definition default : PDFSearcher := searcher 100 false.

Definition file (n : string) (pages : option (list (option str)))
    (st : option stat_result) : pdf_file :=
  {| file_name := py n;
     file_path := py "./pdfs/" ++ py n;
     file_relative := py n;
     pdf_pages := pages;
     file_stat := st |}.

Definition a_pdf : pdf_file :=
  file "expediente_100.pdf" (Some [])
    (Some {| st_size := 10; st_mtime := 5 |}).

Definition b_pdf : pdf_file :=
  file "b.pdf" (Some [Some (py "sello 55 caratula Juan Perez")])
    (Some {| st_size := 20; st_mtime := 7 |}).

Definition both_pdf : pdf_file :=
  file "100_55.pdf" (Some [])
    (Some {| st_size := 30; st_mtime := 9 |}).

Definition broken_pdf : pdf_file :=
  file "expediente_100_bis.pdf" None None.

Definition corpus (files : list pdf_file) : filesystem :=
  {| root_exists := true; rglob_pdf := files; glob_pdf := files |}.

Definition no_root : filesystem :=
  {| root_exists := false; rglob_pdf := []; glob_pdf := [] |}.

End Sample.

(** ** The rest of the searcher: [__init__] *)

(** [s.lstrip(chars)], the set of characters given as a test. *)
Fixpoint lstrip_by (drop : ascii -> bool) (s : str) : str :=
  match s with
  | [] => []
  | c :: s' => if drop c then lstrip_by drop s' else s
  end.

Definition strip_by (drop : ascii -> bool) (s : str) : str :=
  rev (lstrip_by drop (rev (lstrip_by drop s))).

(** [s.strip(chars)] *)
Definition strip_chars (chars : str) (s : str) : str :=
  strip_by (fun c => existsb (Ascii.eqb c) chars) s.

(** The double quote and the apostrophe. *)
Definition dquote : ascii := ascii_of_nat 34.
Definition squote : ascii := ascii_of_nat 39.

(** The value [__init__] gives [self.search_directory]: the configured
    directory with the double quotes stripped from both ends, then the
    apostrophes. *)
Definition search_directory_of (raw_directory : str) : str :=
  strip_chars [squote] (strip_chars [dquote] raw_directory).

Definition is_quote (c : ascii) : bool :=
  Ascii.eqb c dquote || Ascii.eqb c squote.

(** The first character of [s] passes the test (an empty [s] does). *)
Definition head_ok (ok : ascii -> bool) (s : str) : bool :=
  match s with
  | [] => true
  | c :: _ => ok c
  end.

(** A path that neither starts nor ends with a quote of either kind. *)
Definition unquoted (p : str) : bool :=
  head_ok (fun c => negb (is_quote c)) p
  && head_ok (fun c => negb (is_quote c)) (rev p).

(** ** What the extractor and the sort compute *)

(** The page texts as the extractor joins them: each non-empty one
    followed by a line feed. *)
Definition join_pages (texts : list str) : str :=
  flat_map (fun page_text => page_text ++ [PyStr.newline])
    (filter (fun page_text => negb (is_empty page_text)) texts).

(** Two results with the same sort key. *)
Definition same_key (a b : search_result) : bool :=
  (relevance_score a =? relevance_score b) && (modified a =? modified b)%Z.

(** ** The variants of a term, as pieces and as texts *)

(** The pieces of an escaped term: every character stands for itself. *)
Definition lit_pieces (term_search : str) : list Re.piece :=
  map (fun c => (Re.ALit c, Re.QOne)) term_search.

(** The set a separator (hyphen or slash) is replaced by. *)
Definition sep_set (sep : ascii) : str := py "[" ++ [sep] ++ py "\s]?".

Definition sep_piece (sep c : ascii) : Re.piece :=
  if Ascii.eqb c sep
  then (Re.ASet [Re.CChar sep; Re.CSpace], Re.QOpt)
  else (Re.ALit c, Re.QOne).

(** [relaxed sep t s]: the text [s] is the term [t] in which each
    separator is kept, left out, or replaced by one white space
    character. *)
Inductive relaxed (sep : ascii) : str -> str -> Prop :=
| relaxed_nil : relaxed sep [] []
| relaxed_same c t s : relaxed sep t s -> relaxed sep (c :: t) (c :: s)
| relaxed_gone t s : relaxed sep t s -> relaxed sep (sep :: t) s
| relaxed_space w t s :
    PyStr.isspace w = true -> relaxed sep t s ->
    relaxed sep (sep :: t) (w :: s).

Definition space_piece (c : ascii) : Re.piece :=
  if Ascii.eqb c " " then (Re.ASpace, Re.QPlus) else (Re.ALit c, Re.QOne).

(** [spaced t s]: the text [s] is the term [t] in which each space is
    kept or replaced by a run of one or more white space characters. *)
Inductive spaced : str -> str -> Prop :=
| spaced_nil : spaced [] []
| spaced_same c t s : spaced t s -> spaced (c :: t) (c :: s)
| spaced_run w ws t s :
    PyStr.isspace w = true -> forallb PyStr.isspace ws = true ->
    spaced t s -> spaced (" "%char :: t) (w :: ws ++ s).

(** ** Results up to their content matches *)

(** A result without its breakdown by content. *)
Definition forget_content (r : search_result) : search_result :=
  {| filename := filename r;
     path := path r;
     relative_path := relative_path r;
     matches := matches r;
     filename_matches := filename_matches r;
     content_matches := [];
     size := size r;
     modified := modified r;
     relevance_score := relevance_score r |}.

(** ** The route [/search] *)

(** A JSON value as [request.get_json()] gives it: [None], a [bool], a
    number (here a fraction), a [str], a [list] or a [dict]. *)
Unset Elimination Schemes.

Inductive json :=
| JNull
| JBool (b : bool)
| JNum (num : Z) (den : positive)
| JStr (s : str)
| JArr (items : list json)
| JObj (members : list (str * json)).

Set Elimination Schemes.

(** The truth value Python gives a JSON value in a condition. *)
Definition truthy (v : json) : bool :=
  match v with
  | JNull => false
  | JBool b => b
  | JNum num _ => negb (num =? 0)%Z
  | JStr s => negb (is_empty s)
  | JArr items => negb (is_empty items)
  | JObj members => negb (is_empty members)
  end.

Definition str_eqb (a b : str) : bool :=
  if list_eq_dec ascii_dec a b then true else false.

(** [data.get(key, default)] on the members of a JSON object. *)
Fixpoint dict_get (data : list (str * json)) (key : str) (default : json)
  : json :=
  match data with
  | [] => default
  | (k, v) :: data' => if str_eqb k key then v else dict_get data' key default
  end.

(** What makes the route answer 500: an exception of [search_pdfs]
    proper, or the [AttributeError] of [.strip()] on a value that is no
    string. *)
Inductive route_error :=
| Raised (e : exn)
| AttributeError.

(** The answer of the route: the body with [success], [results], [total]
    and the echoed [search_params] (status 200), or the body with
    [success] false and the error (status 500). *)
Inductive response :=
| SearchOk (results : list search_result) (total : nat)
    (expediente sello caratula match_all : json)
| SearchFailed (error : route_error).

Definition status_code (resp : response) : nat :=
  match resp with
  | SearchOk _ _ _ _ _ _ => 200
  | SearchFailed _ => 500
  end.

(** The view function [search], for a request whose body is a JSON
    object. *)
Definition search_route (re_search : engine) (self : PDFSearcher)
    (fs : filesystem) (data : list (str * json)) : list event * response :=
  let expediente := dict_get data (py "expediente") (JStr []) in
  let sello := dict_get data (py "sello") (JStr []) in
  let caratula := dict_get data (py "caratula") (JStr []) in
  let match_all := dict_get data (py "match_all") (JBool false) in
  match expediente, sello, caratula with
  | JStr e, JStr s, JStr c =>
      match search_pdfs re_search self fs e s c (truthy match_all) with
      | (tr, Return results) =>
          (tr, SearchOk results (length results)
                 expediente sello caratula match_all)
      | (tr, Raise ex) => (tr, SearchFailed (Raised ex))
      end
  | _, _, _ => ([], SearchFailed AttributeError)
  end.

Definition is_str (v : json) : bool :=
  match v with
  | JStr _ => true
  | _ => false
  end.

Definition str_of (v : json) : str :=
  match v with
  | JStr s => s
  | _ => []
  end.

(** ** Properties *)

(** *** Strings *)

Lemma startswith_iff (s t : str) :
  PyStr.startswith s t = true <-> exists post, s = t ++ post.
Proof.
  revert s; induction t as [|d t IH]; intros s.
  - split; [intros _; now exists s | intros _; now destruct s].
  - destruct s as [|c s]; simpl.
    + split; [discriminate | intros [post H]; discriminate].
    + rewrite andb_true_iff, Ascii.eqb_eq, IH. split.
      * intros [-> [post ->]]. now exists post.
      * intros [post H]. injection H as -> ->. split; [reflexivity | now exists post].
Qed.

Lemma contains_iff (t s : str) :
  PyStr.contains t s = true <-> exists pre post, s = pre ++ t ++ post.
Proof.
  induction s as [|c s IH].
  - change (PyStr.contains t []) with (PyStr.startswith [] t || false).
    rewrite orb_false_r, startswith_iff. split.
    + intros [post H]. now exists [], post.
    + intros [pre [post H]]. destruct pre; [now exists post | discriminate].
  - change (PyStr.contains t (c :: s))
      with (PyStr.startswith (c :: s) t || PyStr.contains t s).
    rewrite orb_true_iff, startswith_iff, IH. split.
    + intros [[post H] | [pre [post H]]].
      * now exists [], post.
      * exists (c :: pre), post. now rewrite H.
    + intros [[|c' pre] [post H]].
      * left. now exists post.
      * right. injection H as _ H. now exists pre, post.
Qed.

(** *** The monad *)

Lemma extract_text_total (self : PDFSearcher) (f : pdf_file) :
  exists text, extract_text_from_pdf self f = ([EvOpenPdf (file_path f)], Return text).
Proof.
  unfold extract_text_from_pdf, read_pdf.
  destruct (pdf_pages f) as [pages|].
  - destruct (read_pages (firstn 5 pages) []) as [text|e];
      [exists (fold_case self text) | exists []]; reflexivity.
  - exists []; reflexivity.
Qed.

Lemma extract_text_eq (self : PDFSearcher) (f : pdf_file) :
  extract_text_from_pdf self f = ([EvOpenPdf (file_path f)], Return (pdf_text self f)).
Proof.
  unfold pdf_text. destruct (extract_text_total self f) as [t ->]. reflexivity.
Qed.

Lemma match_file_eq re self f search_terms match_all :
  match_file re self f search_terms match_all =
    match content_outcome re self f search_terms match_all with
    | Return ct_matches =>
        (open_events self f search_terms match_all,
         Return (search_in_filename self (file_name f) search_terms,
                 ct_matches))
    | Raise e => (open_events self f search_terms match_all, Raise e)
    end.
Proof.
  unfold match_file, open_events, content_outcome, extracts.
  destruct (is_empty _ || match_all); [|reflexivity].
  rewrite extract_text_eq. cbn [bind].
  destruct (search_in_content _ _ _ _); reflexivity.
Qed.

Lemma process_file_eq re self f search_terms match_all :
  process_file re self f search_terms match_all =
    match content_outcome re self f search_terms match_all with
    | Raise e => (open_events self f search_terms match_all, Raise e)
    | Return _ =>
        if included re self f search_terms match_all then
          match file_stat f with
          | Some st =>
              (open_events self f search_terms match_all
                 ++ [EvStat (file_path f); EvStat (file_path f)],
               Return (Some (result_of re self f search_terms match_all st)))
          | None =>
              (open_events self f search_terms match_all
                 ++ [EvStat (file_path f)],
               Raise OSError)
          end
        else (open_events self f search_terms match_all, Return None)
    end.
Proof.
  unfold process_file. rewrite match_file_eq.
  destruct (content_outcome re self f search_terms match_all) as [ct|e] eqn:C;
    [|reflexivity].
  assert (Hct : content_matches_of re self f search_terms match_all = ct)
    by (unfold content_matches_of; now rewrite C).
  unfold included, result_of, matches_of. rewrite Hct. unfold stat.
  cbn [bind tell ret raise].
  destruct (should_include _ _ _).
  - destruct (file_stat f) as [st|]; cbn; rewrite ?app_nil_r; reflexivity.
  - cbn. rewrite app_nil_r. reflexivity.
Qed.

(** *** The scan loop *)

Section ScanFacts.

Variable re_search : engine.
Variable self : PDFSearcher.
Variable search_terms : terms.
Variable match_all : bool.

Let scan' := scan re_search self.
Let contribution' f := contribution re_search self f search_terms match_all.

Lemma process_file_contribution f :
  match contribution' f with
  | Some r =>
      snd (process_file re_search self f search_terms match_all)
      = Return (Some r)
  | None =>
      snd (process_file re_search self f search_terms match_all) = Return None
      \/ exists e,
           snd (process_file re_search self f search_terms match_all) = Raise e
  end.
Proof.
  rewrite process_file_eq. unfold contribution', contribution.
  destruct (content_outcome _ _ _ _ _) as [ct|e]; [|right; now exists e].
  destruct (included _ _ _ _ _); [|now left].
  destruct (file_stat f); cbn [option_map snd]; [reflexivity|].
  right. now exists OSError.
Qed.

Lemma scan_nil results :
  scan' [] search_terms match_all results = ([], results).
Proof. reflexivity. Qed.

Lemma scan_break f rest results :
  cap_reached self results = true ->
  scan' (f :: rest) search_terms match_all results = ([], results).
Proof.
  unfold cap_reached, scan'. intros H. cbn [scan]. now rewrite H.
Qed.

Lemma scan_cons f rest results :
  cap_reached self results = false ->
  scan' (f :: rest) search_terms match_all results
  = (fst (process_file re_search self f search_terms match_all)
       ++ fst (scan' rest search_terms match_all
                 (append_contribution results (contribution' f))),
     snd (scan' rest search_terms match_all
            (append_contribution results (contribution' f)))).
Proof.
  unfold cap_reached, scan'. intros H. cbn [scan]. rewrite H.
  pose proof (process_file_contribution f) as E.
  destruct (process_file re_search self f search_terms match_all) as [tr o].
  cbn [fst snd] in *.
  destruct (contribution' f) as [r|]; cbn [append_contribution].
  - subst o. destruct (scan _ _ _ _ _ _); reflexivity.
  - destruct E as [-> | [e ->]]; destruct (scan _ _ _ _ _ _); reflexivity.
Qed.

(** The loop only ever appends, and only contributions of the files. *)
Lemma scan_appends files results :
  exists more,
    snd (scan' files search_terms match_all results) = results ++ more
    /\ Forall (fun r => exists f, In f files /\ contribution' f = Some r) more.
Proof.
  revert results; induction files as [|f rest IH]; intros results.
  - exists []. rewrite scan_nil, app_nil_r. auto.
  - destruct (cap_reached self results) eqn:Hcap.
    + exists []. rewrite scan_break, app_nil_r by assumption. auto.
    + rewrite scan_cons by assumption. cbn [snd].
      destruct (IH (append_contribution results (contribution' f)))
        as [more [E F]].
      rewrite E.
      assert (F' : Forall (fun r => exists f0, In f0 (f :: rest)
                                     /\ contribution' f0 = Some r) more).
      { eapply Forall_impl; [|exact F].
        intros r [f0 [I C]]. exists f0. split; [now right | exact C]. }
      destruct (contribution' f) as [r|] eqn:C; cbn [append_contribution].
      * exists (r :: more). rewrite <- app_assoc. split; [reflexivity|].
        constructor; [|exact F']. exists f. split; [now left | exact C].
      * exists more. auto.
Qed.

(** The cap bounds the list, once it is not negative. *)
Lemma scan_length files results :
  (0 <= max_results self)%Z ->
  (Z.of_nat (length results) <= max_results self)%Z ->
  (Z.of_nat (length (snd (scan' files search_terms match_all results)))
   <= max_results self)%Z.
Proof.
  intros Hmax. revert results; induction files as [|f rest IH]; intros results Hlen.
  - rewrite scan_nil. exact Hlen.
  - destruct (cap_reached self results) eqn:Hcap.
    + rewrite scan_break by assumption. exact Hlen.
    + rewrite scan_cons by assumption. cbn [snd]. apply IH.
      unfold cap_reached in Hcap. apply Z.leb_gt in Hcap.
      destruct (contribution' f); cbn [append_contribution]; [|exact Hlen].
      rewrite length_app. cbn [length]. lia.
Qed.

(** A scan that ends below the cap has kept every contribution. *)
Lemma scan_complete files results :
  (Z.of_nat (length (snd (scan' files search_terms match_all results)))
   < max_results self)%Z ->
  forall f r, In f files -> contribution' f = Some r ->
    In r (snd (scan' files search_terms match_all results)).
Proof.
  revert results; induction files as [|f0 rest IH]; intros results Hlt f r I C.
  - destruct I.
  - assert (Hcap : cap_reached self results = false).
    { destruct (cap_reached self results) eqn:Hcap; [|reflexivity].
      rewrite scan_break in Hlt by assumption. cbn [snd] in Hlt.
      unfold cap_reached in Hcap. apply Z.leb_le in Hcap. lia. }
    rewrite scan_cons in * by assumption. cbn [snd] in *.
    destruct I as [-> | I].
    + rewrite C. cbn [append_contribution].
      destruct (scan_appends rest (results ++ [r])) as [more [E _]].
      rewrite E. apply in_or_app. left. apply in_or_app. right. now left.
    + eapply IH; eassumption.
Qed.

End ScanFacts.

(** *** The sort *)

Lemma key_ltb_false a b : key_ltb a b = false <-> ranked_before a b.
Proof.
  unfold key_ltb, ranked_before.
  rewrite orb_false_iff, andb_false_iff, Nat.ltb_ge, Nat.eqb_neq, Z.ltb_ge.
  lia.
Qed.

Lemma key_ltb_true a b : key_ltb a b = true -> ranked_before b a.
Proof.
  unfold key_ltb, ranked_before.
  rewrite orb_true_iff, andb_true_iff, Nat.ltb_lt, Nat.eqb_eq, Z.ltb_lt.
  lia.
Qed.

Lemma ranked_before_trans a b c :
  ranked_before a b -> ranked_before b c -> ranked_before a c.
Proof. unfold ranked_before. lia. Qed.

Lemma insert_desc_perm x l : Permutation (insert_desc x l) (x :: l).
Proof.
  induction l as [|y l IH]; cbn [insert_desc]; [reflexivity|].
  destruct (key_ltb x y); [|reflexivity].
  rewrite IH. apply perm_swap.
Qed.

Lemma sort_results_perm l : Permutation (sort_results l) l.
Proof.
  induction l as [|x l IH]; cbn [sort_results fold_right]; [constructor|].
  rewrite insert_desc_perm. now constructor.
Qed.

Lemma insert_desc_sorted x l :
  StronglySorted ranked_before l ->
  StronglySorted ranked_before (insert_desc x l).
Proof.
  induction 1 as [|y l Hs IH Hall]; cbn [insert_desc].
  - repeat constructor.
  - destruct (key_ltb x y) eqn:K.
    + constructor; [exact IH|].
      eapply Permutation_Forall; [symmetry; apply insert_desc_perm|].
      constructor; [now apply key_ltb_true | exact Hall].
    + apply key_ltb_false in K.
      constructor; [now constructor|].
      constructor; [exact K|].
      eapply Forall_impl; [|exact Hall].
      intros z Hz. eapply ranked_before_trans; eassumption.
Qed.

Lemma sort_results_sorted l : StronglySorted ranked_before (sort_results l).
Proof.
  induction l as [|x l IH]; cbn [sort_results fold_right].
  - constructor.
  - now apply insert_desc_sorted.
Qed.

Lemma strongly_sorted_pairs {A} (R : A -> A -> Prop) l :
  StronglySorted R l ->
  forall i j a b, i < j -> nth_error l i = Some a -> nth_error l j = Some b ->
    R a b.
Proof.
  induction 1 as [|x l Hs IH Hall]; intros i j a b Hij Hi Hj.
  - destruct i; discriminate.
  - destruct j as [|j]; [lia|]. cbn [nth_error] in Hj.
    destruct i as [|i]; cbn [nth_error] in Hi.
    + injection Hi as ->. rewrite Forall_forall in Hall.
      apply Hall. eapply nth_error_In; eassumption.
    + eapply IH; [|eassumption|eassumption]. lia.
Qed.

(** *** [search_pdfs] as a whole *)

Section SearchFacts.

Variable re_search : engine.
Variable self : PDFSearcher.
Variable fs : filesystem.

Lemma search_terms_empty expediente sello caratula :
  is_empty (search_terms_of expediente sello caratula) = true
  <-> PyStr.strip expediente = [] /\ PyStr.strip sello = []
      /\ PyStr.strip caratula = [].
Proof.
  unfold search_terms_of. cbn [filter snd].
  destruct (PyStr.strip expediente), (PyStr.strip sello),
    (PyStr.strip caratula); cbn; intuition congruence.
Qed.

Lemma search_terms_nonempty_values expediente sello caratula k v :
  In (k, v) (search_terms_of expediente sello caratula) -> v <> [].
Proof.
  unfold search_terms_of. rewrite filter_In. cbn [snd].
  intros [_ H] ->. discriminate.
Qed.

Lemma search_pdfs_no_terms expediente sello caratula match_all :
  is_empty (search_terms_of expediente sello caratula) = true ->
  search_pdfs re_search self fs expediente sello caratula match_all
  = ([], Return []).
Proof. unfold search_pdfs. now intros ->. Qed.

Lemma search_pdfs_no_root expediente sello caratula match_all :
  is_empty (search_terms_of expediente sello caratula) = false ->
  root_exists fs = false ->
  search_pdfs re_search self fs expediente sello caratula match_all
  = ([EvExists], Raise FileNotFoundError).
Proof. unfold search_pdfs. now intros -> ->. Qed.

Lemma search_pdfs_scan expediente sello caratula match_all :
  is_empty (search_terms_of expediente sello caratula) = false ->
  root_exists fs = true ->
  search_pdfs re_search self fs expediente sello caratula match_all
  = (EvExists :: EvGlob (search_subdirectories self)
       :: fst (scan re_search self (pdf_files_of self fs)
                 (search_terms_of expediente sello caratula) match_all []),
     Return (sort_results
               (snd (scan re_search self (pdf_files_of self fs)
                       (search_terms_of expediente sello caratula)
                       match_all [])))).
Proof.
  unfold search_pdfs, pdf_files_of. intros -> ->. cbn [negb].
  cbn [bind tell ret]. destruct (scan _ _ _ _ _ _). reflexivity.
Qed.

(** What a successful call returns is the sorted list of the scan. *)
Lemma search_pdfs_returns expediente sello caratula match_all tr out :
  search_pdfs re_search self fs expediente sello caratula match_all
  = (tr, Return out) ->
  out = []
  \/ out = sort_results
             (snd (scan re_search self (pdf_files_of self fs)
                     (search_terms_of expediente sello caratula)
                     match_all [])).
Proof.
  destruct (is_empty (search_terms_of expediente sello caratula)) eqn:E.
  - rewrite search_pdfs_no_terms by assumption. intros [= _ <-]. now left.
  - destruct (root_exists fs) eqn:R.
    + rewrite search_pdfs_scan by assumption. intros [= _ <-]. now right.
    + rewrite search_pdfs_no_root by assumption. discriminate.
Qed.

End SearchFacts.

(** *** Claims about the call as a whole *)

(** C1. When the three terms are empty once stripped, [search_pdfs]
    returns the empty list, whatever [match_all] is, and its trace of file
    system accesses is empty: the search root is not even tested, so no
    [FileNotFoundError] can come out, also when the root is missing. *)
Theorem search_empty_criteria re_search self fs expediente sello caratula
    match_all :
  PyStr.strip expediente = [] ->
  PyStr.strip sello = [] ->
  PyStr.strip caratula = [] ->
  search_pdfs re_search self fs expediente sello caratula match_all
  = ([], Return []).
Proof.
  intros He Hs Hc. apply search_pdfs_no_terms.
  apply search_terms_empty. auto.
Qed.

Lemma search_empty_criteria_witness :
  search_pdfs Re.fragment_engine Sample.default Sample.no_root
    (py "  ") [] (py " ") true
  = ([], Return []).
Proof.
  apply search_empty_criteria; reflexivity.
Defined.

(** C5. When some term is left after stripping and the search root does
    not exist, [search_pdfs] raises [FileNotFoundError] to its caller,
    whatever [match_all] is.  The root was tested once and nothing else was
    accessed: no retry, no listing, no result. *)
Theorem search_missing_root re_search self fs expediente sello caratula
    match_all :
  PyStr.strip expediente <> [] \/ PyStr.strip sello <> []
    \/ PyStr.strip caratula <> [] ->
  root_exists fs = false ->
  search_pdfs re_search self fs expediente sello caratula match_all
  = ([EvExists], Raise FileNotFoundError).
Proof.
  intros Hterm Hroot. apply search_pdfs_no_root; [|exact Hroot].
  destruct (is_empty (search_terms_of expediente sello caratula)) eqn:E;
    [|reflexivity].
  apply search_terms_empty in E. tauto.
Qed.

Lemma search_missing_root_witness :
  search_pdfs Re.fragment_engine Sample.default Sample.no_root
    (py " 100 ") [] [] false
  = ([EvExists], Raise FileNotFoundError).
Proof.
  apply search_missing_root; [left; vm_compute; discriminate | reflexivity].
Defined.

(** C2, as the code has it.  When the configured [max_results] is not
    negative, the list a call returns is no longer than [max_results].
    Reaching the cap is the loop's [break]: from a list that has reached
    it the scan returns that list without touching another file, and a
    call whose root exists returns a list, never an exception. *)
Theorem search_cap re_search self fs expediente sello caratula match_all :
  (0 <= max_results self)%Z ->
  (forall tr out,
      search_pdfs re_search self fs expediente sello caratula match_all
      = (tr, Return out) ->
      (Z.of_nat (length out) <= max_results self)%Z)
  /\ (forall pdf_files search_terms results,
         (max_results self <= Z.of_nat (length results))%Z ->
         scan re_search self pdf_files search_terms match_all results
         = ([], results))
  /\ (root_exists fs = true ->
      exists tr out,
        search_pdfs re_search self fs expediente sello caratula match_all
        = (tr, Return out)).
Proof.
  intros Hmax. split; [|split].
  - intros tr out E. apply search_pdfs_returns in E. destruct E as [-> | ->].
    + exact Hmax.
    + rewrite (Permutation_length (sort_results_perm _)).
      apply scan_length; [exact Hmax | cbn; lia].
  - intros pdf_files search_terms results Hcap.
    destruct pdf_files as [|f rest]; [reflexivity|].
    apply scan_break. unfold cap_reached. now apply Z.leb_le.
  - intros Hroot.
    destruct (is_empty (search_terms_of expediente sello caratula)) eqn:E.
    + rewrite search_pdfs_no_terms by assumption. eauto.
    + rewrite search_pdfs_scan by assumption. eauto.
Qed.

Lemma search_cap_witness :
  exists tr out,
    search_pdfs Re.fragment_engine (Sample.searcher 1 false)
      (Sample.corpus [Sample.a_pdf; Sample.both_pdf]) (py "100") [] [] false
    = (tr, Return out)
    /\ (Z.of_nat (length out) <= 1)%Z.
Proof.
  eexists _, _. split; [vm_compute; reflexivity|].
  refine (proj1 (@search_cap Re.fragment_engine (Sample.searcher 1 false)
                   (Sample.corpus [Sample.a_pdf; Sample.both_pdf])
                   (py "100") [] [] false _) _ _ _).
  - vm_compute. discriminate.
  - vm_compute. reflexivity.
Defined.

(** C2 as stated fails for a negative cap: with [max_results = -1] the
    loop breaks before the first file and the empty list comes back, whose
    length 0 is not at most -1. *)
Lemma search_negative_cap_counterexample :
  (forall re_search,
      search_pdfs re_search (Sample.searcher (-1) false)
        (Sample.corpus [Sample.a_pdf]) (py "100") [] [] false
      = ([EvExists; EvGlob true], Return []))
  /\ ~ (Z.of_nat (length (@nil search_result))
        <= max_results (Sample.searcher (-1) false))%Z.
Proof.
  split; [intros re_search; reflexivity | vm_compute; intros H; now apply H].
Qed.

(** C3. In the list a call returns, a result that comes before another
    has the greater [relevance_score], or the same score and a [modified]
    time at least as late. *)
Theorem search_ranking re_search self fs expediente sello caratula match_all
    tr out i j a b :
  search_pdfs re_search self fs expediente sello caratula match_all
  = (tr, Return out) ->
  i < j ->
  nth_error out i = Some a ->
  nth_error out j = Some b ->
  relevance_score a > relevance_score b
  \/ (relevance_score a = relevance_score b /\ (modified a >= modified b)%Z).
Proof.
  intros E Hij Hi Hj.
  apply search_pdfs_returns in E. destruct E as [-> | ->].
  - destruct i; discriminate.
  - exact (strongly_sorted_pairs (sort_results_sorted _) Hij Hi Hj).
Qed.

Lemma search_ranking_witness :
  let search_terms := [(Expediente, py "100"); (Sello, py "55")] in
  let a := result_of Re.fragment_engine Sample.default Sample.b_pdf
             search_terms false {| st_size := 20; st_mtime := 7 |} in
  let b := result_of Re.fragment_engine Sample.default Sample.a_pdf
             search_terms false {| st_size := 10; st_mtime := 5 |} in
  relevance_score a > relevance_score b
  \/ (relevance_score a = relevance_score b /\ (modified a >= modified b)%Z).
Proof.
  intros search_terms a b.
  eapply (@search_ranking Re.fragment_engine Sample.default
            (Sample.corpus [Sample.a_pdf; Sample.b_pdf])
            (py "100") (py "55") [] false _ _ 0 1 a b).
  - vm_compute. reflexivity.
  - lia.
  - vm_compute. reflexivity.
  - vm_compute. reflexivity.
Defined.

(** *** Claims about one file *)

Lemma open_events_in self f search_terms match_all p :
  In (EvOpenPdf p) (open_events self f search_terms match_all)
  <-> extracts self f search_terms match_all = true /\ p = file_path f.
Proof.
  unfold open_events. destruct (extracts _ _ _ _); cbn.
  - split; [intros [[= ->] | []]; auto | intros [_ ->]; auto].
  - split; [intros [] | intros [[=] _]].
Qed.

Lemma process_file_opens re_search self f search_terms match_all :
  In (EvOpenPdf (file_path f))
    (fst (process_file re_search self f search_terms match_all))
  <-> extracts self f search_terms match_all = true.
Proof.
  rewrite process_file_eq.
  assert (S : forall l, In (EvOpenPdf (file_path f))
                          (open_events self f search_terms match_all ++ l)
                        <-> extracts self f search_terms match_all = true
                            \/ In (EvOpenPdf (file_path f)) l).
  { intros l. rewrite in_app_iff, open_events_in. tauto. }
  destruct (content_outcome _ _ _ _ _);
    [destruct (included _ _ _ _ _); [destruct (file_stat f)|]|]; cbn [fst].
  - rewrite S. cbn. intuition discriminate.
  - rewrite S. cbn. intuition discriminate.
  - rewrite open_events_in. tauto.
  - rewrite open_events_in. tauto.
Qed.

Lemma extracts_iff self f search_terms match_all :
  extracts self f search_terms match_all = true
  <-> search_in_filename self (file_name f) search_terms = []
      \/ match_all = true.
Proof.
  unfold extracts. rewrite orb_true_iff.
  destruct (search_in_filename self (file_name f) search_terms); cbn;
    intuition discriminate.
Qed.

Lemma process_file_result re_search self f search_terms match_all r :
  snd (process_file re_search self f search_terms match_all) = Return (Some r) ->
  exists st, file_stat f = Some st
             /\ r = result_of re_search self f search_terms match_all st
             /\ content_outcome re_search self f search_terms match_all
                = Return (content_matches_of re_search self f search_terms
                            match_all)
             /\ included re_search self f search_terms match_all = true.
Proof.
  rewrite process_file_eq. unfold content_matches_of.
  destruct (content_outcome _ _ _ _ _) as [ct|e]; [|discriminate].
  destruct (included _ _ _ _ _); [destruct (file_stat f) as [st|]|]; cbn [snd];
    intros [= <-] || discriminate.
  now exists st.
Qed.

(** C6. For every file the loop processes, the PDF is opened and its
    text matched exactly when the file name matched no field or
    [match_all] is set.  A result then carries the fields matched in the
    extracted text whenever that test holds (so also under [match_all]
    with a matching name), and in ANY mode a file whose name matched has
    no content matches. *)
Theorem content_extraction_policy re_search self f search_terms match_all :
  (In (EvOpenPdf (file_path f))
      (fst (process_file re_search self f search_terms match_all))
   <-> search_in_filename self (file_name f) search_terms = []
       \/ match_all = true)
  /\ (forall r,
         snd (process_file re_search self f search_terms match_all)
         = Return (Some r) ->
         filename_matches r = search_in_filename self (file_name f) search_terms
         /\ (if is_empty (filename_matches r) || match_all
             then search_in_content re_search self (pdf_text self f) search_terms
             else Return [])
            = Return (content_matches r))
  /\ (forall r,
         snd (process_file re_search self f search_terms match_all)
         = Return (Some r) ->
         match_all = false -> filename_matches r <> [] ->
         content_matches r = []).
Proof.
  split; [|split].
  - rewrite process_file_opens. apply extracts_iff.
  - intros r E. apply process_file_result in E.
    destruct E as [st [_ [-> [C _]]]]. split; [reflexivity|]. exact C.
  - intros r E -> Hfn. apply process_file_result in E.
    destruct E as [st [_ [-> _]]].
    unfold result_of in *. cbn [filename_matches content_matches] in *.
    unfold content_matches_of, content_outcome, extracts.
    destruct (search_in_filename self (file_name f) search_terms);
      [congruence | reflexivity].
Qed.

Lemma read_pages_fail pages text :
  In None pages -> exists e, read_pages pages text = Raise e.
Proof.
  revert text; induction pages as [|[page_text|] pages IH]; intros text H.
  - destruct H.
  - destruct H as [H|H]; [discriminate|]. cbn [read_pages].
    destruct (negb (is_empty page_text)); now apply IH.
  - now exists PdfReadError.
Qed.

Lemma scan_skips_unreadable_stat re_search self f rest search_terms match_all
    results :
  file_stat f = None ->
  snd (scan re_search self (f :: rest) search_terms match_all results)
  = snd (scan re_search self rest search_terms match_all results).
Proof.
  intros Hstat. destruct (cap_reached self results) eqn:Hcap.
  - rewrite scan_break by assumption.
    destruct rest; [reflexivity | now rewrite scan_break].
  - rewrite scan_cons by assumption. cbn [snd].
    unfold contribution. rewrite Hstat.
    destruct (content_outcome _ _ _ _ _); [|reflexivity].
    now destruct (included _ _ _ _ _).
Qed.

(** C8. No failure on one file ends a search.  A PDF that cannot be
    opened or parsed, or one of whose first five pages cannot be read,
    gives the empty text and no exception.  When the body of the loop
    raises for a file, the loop goes on with the next file and the same
    list; in particular a file whose [stat()] fails adds no record and
    the records of the other files are what they are without it.  So a
    call whose root exists returns a list whatever the files answer. *)
Theorem per_file_failures re_search self search_terms match_all :
  (forall f,
      pdf_pages f = None
      \/ (exists pages, pdf_pages f = Some pages /\ In None (firstn 5 pages)) ->
      extract_text_from_pdf self f = ([EvOpenPdf (file_path f)], Return []))
  /\ (forall f rest results tr e,
         cap_reached self results = false ->
         process_file re_search self f search_terms match_all = (tr, Raise e) ->
         scan re_search self (f :: rest) search_terms match_all results
         = (tr ++ fst (scan re_search self rest search_terms match_all results),
            snd (scan re_search self rest search_terms match_all results)))
  /\ (forall f rest results,
         file_stat f = None ->
         snd (scan re_search self (f :: rest) search_terms match_all results)
         = snd (scan re_search self rest search_terms match_all results))
  /\ (forall fs expediente sello caratula,
         root_exists fs = true ->
         exists tr out,
           search_pdfs re_search self fs expediente sello caratula match_all
           = (tr, Return out)).
Proof.
  split; [|split; [|split]].
  - intros f [Hnone | [pages [Hsome Hin]]];
      unfold extract_text_from_pdf, read_pdf.
    + rewrite Hnone. reflexivity.
    + rewrite Hsome. destruct (@read_pages_fail (firstn 5 pages) [] Hin) as [e ->]. reflexivity.
  - intros f rest results tr e Hcap E. rewrite scan_cons by assumption.
    pose proof (process_file_contribution re_search self search_terms match_all f) as C.
    rewrite E in *. cbn [fst snd] in C.
    destruct (contribution _ _ _ _ _); [discriminate|]. reflexivity.
  - intros. now apply scan_skips_unreadable_stat.
  - intros fs expediente sello caratula Hroot.
    destruct (is_empty (search_terms_of expediente sello caratula)) eqn:E.
    + rewrite search_pdfs_no_terms by assumption. eauto.
    + rewrite search_pdfs_scan by assumption. eauto.
Qed.

(** *** The two matchers as filters *)

Lemma fold_collect {A B} (test : A -> bool) (h : A -> B) (step : list B -> A -> list B) :
  (forall acc x, step acc x = if test x then acc ++ [h x] else acc) ->
  forall l acc, fold_left step l acc = acc ++ map h (filter test l).
Proof.
  intros Hstep. induction l as [|x l IH]; intros acc; cbn [fold_left filter map].
  - now rewrite app_nil_r.
  - rewrite IH, Hstep. destruct (test x); [|reflexivity].
    cbn [map]. now rewrite <- app_assoc.
Qed.

Lemma search_in_filename_filter self filename search_terms :
  search_in_filename self filename search_terms
  = map fst (filter (filename_hit self filename) search_terms).
Proof.
  unfold search_in_filename.
  rewrite (fold_collect (filename_hit self filename) fst); [reflexivity|].
  intros acc [k v]. unfold filename_hit. cbn [fst snd].
  destruct (negb (is_empty v)); cbn [andb]; reflexivity.
Qed.

Lemma content_loop_spec re_search self content items :
  forall matches,
    content_loop re_search self content items matches
    = match first_raise re_search self content items with
      | Some e => Raise e
      | None =>
          Return (matches
                    ++ map fst (filter (content_hit re_search self content)
                                  items))
      end.
Proof.
  induction items as [|[k v] items IH]; intros matches;
    cbn [content_loop first_raise filter map].
  - now rewrite app_nil_r.
  - unfold content_hit at 1, term_outcome. cbn [snd].
    destruct (negb (is_empty v)); cbn [andb]; [|apply IH].
    destruct (try_patterns _ _ _ _) as [tried [found|e]]; cbn [snd];
      [|reflexivity].
    rewrite IH. destruct (first_raise _ _ _ _); [reflexivity|].
    destruct found; cbn [map fst]; [|reflexivity].
    now rewrite <- app_assoc.
Qed.

(** [search_in_content] raises what the first term to raise raises;
    otherwise it returns the fields whose term matched, in the order of
    the terms. *)
Lemma search_in_content_filter re_search self content search_terms :
  search_in_content re_search self content search_terms
  = match first_raise re_search self content search_terms with
    | Some e => Raise e
    | None =>
        Return (map fst (filter (content_hit re_search self content)
                           search_terms))
    end.
Proof. unfold search_in_content. now rewrite content_loop_spec. Qed.

Lemma search_in_content_returns re_search self content search_terms ms :
  search_in_content re_search self content search_terms = Return ms ->
  first_raise re_search self content search_terms = None
  /\ ms = map fst (filter (content_hit re_search self content) search_terms).
Proof.
  rewrite search_in_content_filter.
  destruct (first_raise _ _ _ _); [discriminate|]. now intros [= <-].
Qed.

(** *** Engines that agree with the fragment *)

Lemma fragment_engine_agrees : Re.agrees Re.fragment_engine.
Proof.
  intros pattern text ignorecase o H. unfold Re.fragment_engine. now rewrite H.
Qed.

Lemma try_patterns_agree re_search ps content ignorecase :
  Re.agrees re_search ->
  forallb (fun pattern =>
             match Re.fragment pattern content ignorecase with
             | Some _ => true
             | None => false
             end) ps = true ->
  try_patterns re_search ps content ignorecase
  = try_patterns Re.fragment_engine ps content ignorecase.
Proof.
  intros Hre. induction ps as [|pattern ps IH]; [reflexivity|].
  cbn [forallb try_patterns]. rewrite andb_true_iff. intros [Hp Hps].
  destruct (Re.fragment pattern content ignorecase) as [o|] eqn:F;
    [|discriminate].
  rewrite (Hre _ _ _ _ F), (fragment_engine_agrees _ _ _ F), (IH Hps).
  reflexivity.
Qed.

Lemma search_in_content_agree re_search self content search_terms :
  Re.agrees re_search ->
  covered self content search_terms = true ->
  search_in_content re_search self content search_terms
  = search_in_content Re.fragment_engine self content search_terms.
Proof.
  intros Hre. unfold search_in_content, covered. generalize (@nil field).
  induction search_terms as [|[k v] l IH]; intros matches; [reflexivity|].
  cbn [forallb content_loop snd]. rewrite andb_true_iff. intros [Hkv Hl].
  destruct v as [|c v]; cbn [is_empty negb orb] in *; [now apply IH|].
  rewrite (try_patterns_agree _ _ _ Hre Hkv).
  destruct (try_patterns Re.fragment_engine _ _ _) as [tried [found|e]];
    [now apply IH | reflexivity].
Qed.

Lemma process_file_ext re1 re2 self f search_terms match_all :
  search_in_content re1 self (pdf_text self f) search_terms
  = search_in_content re2 self (pdf_text self f) search_terms ->
  process_file re1 self f search_terms match_all
  = process_file re2 self f search_terms match_all.
Proof.
  intros E. rewrite !process_file_eq.
  unfold included, result_of, matches_of, content_matches_of, content_outcome.
  now rewrite E.
Qed.

Lemma scan_ext re1 re2 self pdf_files search_terms match_all :
  (forall f, In f pdf_files ->
     search_in_content re1 self (pdf_text self f) search_terms
     = search_in_content re2 self (pdf_text self f) search_terms) ->
  forall results,
    scan re1 self pdf_files search_terms match_all results
    = scan re2 self pdf_files search_terms match_all results.
Proof.
  induction pdf_files as [|f rest IH]; intros H results; [reflexivity|].
  cbn [scan].
  rewrite (@process_file_ext re1 re2) by (apply H; now left).
  destruct (_ <=? _)%Z; [reflexivity|].
  destruct (process_file re2 self f search_terms match_all) as [tr [[r|]|e]];
    rewrite IH by (intros; apply H; now right); reflexivity.
Qed.

(** On a corpus whose texts keep the patterns inside the fragment, the
    call does what it does with the fragment as engine. *)
Lemma search_pdfs_agree re_search self fs expediente sello caratula match_all :
  Re.agrees re_search ->
  forallb (fun f => covered self (pdf_text self f)
                      (search_terms_of expediente sello caratula))
    (pdf_files_of self fs) = true ->
  search_pdfs re_search self fs expediente sello caratula match_all
  = search_pdfs Re.fragment_engine self fs expediente sello caratula match_all.
Proof.
  intros Hre Hcov. unfold search_pdfs.
  destruct (is_empty _); [reflexivity|].
  destruct (negb (root_exists fs)); [reflexivity|].
  fold (pdf_files_of self fs).
  rewrite (@scan_ext re_search Re.fragment_engine); [reflexivity|].
  intros f Hf. apply search_in_content_agree; [exact Hre|].
  rewrite forallb_forall in Hcov. now apply Hcov.
Qed.

(** *** ANY and ALL *)

Lemma in_length_pos {A} (x : A) l : In x l -> (0 <? length l) = true.
Proof. destruct l; [intros [] | reflexivity]. Qed.

Lemma field_mem_in k l : field_mem k l = true <-> In k l.
Proof.
  unfold field_mem. destruct (in_dec field_eq_dec k l); intuition discriminate.
Qed.

(** A file that ALL includes is one that ANY includes, as soon as there is
    a term to look for. *)
Lemma included_all_any re_search self f search_terms :
  is_empty search_terms = false ->
  included re_search self f search_terms true = true ->
  included re_search self f search_terms false = true.
Proof.
  unfold included, should_include, matches_of, all_matches_of,
    content_matches_of, content_outcome, extracts.
  destruct search_terms as [|[k v] l]; [discriminate|]. intros _.
  cbn [map fst forallb]. rewrite andb_true_iff. intros [Hk _].
  apply field_mem_in in Hk.
  destruct (search_in_filename self (file_name f) ((k, v) :: l)) as [|k0 fn].
  - cbn [is_empty orb] in *. eapply in_length_pos. exact Hk.
  - cbn [is_empty orb]. apply in_length_pos with (x := k0).
    apply nodup_In. now left.
Qed.

Lemma contribution_all_any re_search self f search_terms r :
  is_empty search_terms = false ->
  contribution re_search self f search_terms true = Some r ->
  exists r', contribution re_search self f search_terms false = Some r'
             /\ path r' = path r /\ filename r' = filename r
             /\ relative_path r' = relative_path r.
Proof.
  unfold contribution. intros Hne.
  destruct (content_outcome re_search self f search_terms true) as [ct|e] eqn:C;
    [|discriminate].
  assert (C' : exists ct', content_outcome re_search self f search_terms false
                           = Return ct').
  { unfold content_outcome, extracts in *.
    destruct (is_empty (search_in_filename self (file_name f) search_terms));
      cbn [orb] in *; [now exists ct | now exists []]. }
  destruct C' as [ct' ->].
  destruct (included re_search self f search_terms true) eqn:I; [|discriminate].
  rewrite (included_all_any _ _ _ _ Hne I).
  destruct (file_stat f) as [st|]; [|discriminate]. cbn [option_map].
  intros [= <-]. eexists. split; [reflexivity|]. now repeat split.
Qed.

(** C4, as the code has it.  For the same corpus and terms, every file
    that the ALL search returns is returned by the ANY search too,
    provided the ANY search ended below the cap (it returned fewer than
    [max_results] results, so its scan was not cut short). *)
Theorem any_all_monotone re_search self fs expediente sello caratula
    tr_all out_all tr_any out_any :
  search_pdfs re_search self fs expediente sello caratula true
  = (tr_all, Return out_all) ->
  search_pdfs re_search self fs expediente sello caratula false
  = (tr_any, Return out_any) ->
  (Z.of_nat (length out_any) < max_results self)%Z ->
  forall r, In r out_all ->
    exists r', In r' out_any /\ path r' = path r /\ filename r' = filename r
               /\ relative_path r' = relative_path r.
Proof.
  intros Eall Eany Hlt r Hr.
  destruct (is_empty (search_terms_of expediente sello caratula)) eqn:Hne.
  { rewrite search_pdfs_no_terms in Eall by assumption.
    injection Eall as _ <-. destruct Hr. }
  destruct (root_exists fs) eqn:Hroot.
  2:{ rewrite search_pdfs_no_root in Eall by assumption. discriminate. }
  rewrite search_pdfs_scan in Eall, Eany by assumption.
  injection Eall as _ <-. injection Eany as _ <-.
  apply (Permutation_in _ (sort_results_perm _)) in Hr.
  destruct (scan_appends re_search self
              (search_terms_of expediente sello caratula) true
              (pdf_files_of self fs) []) as [more [E F]].
  rewrite E in Hr. cbn [app] in Hr.
  rewrite Forall_forall in F. destruct (F r Hr) as [f [Hf C]].
  destruct (contribution_all_any _ _ _ _ Hne C) as [r' [C' Hsame]].
  exists r'. split; [|exact Hsame].
  apply (Permutation_in _ (Permutation_sym (sort_results_perm _))).
  rewrite (Permutation_length (sort_results_perm _)) in Hlt.
  eapply scan_complete; eassumption.
Qed.

Lemma any_all_monotone_witness :
  exists r',
    In r' (sort_results
             (snd (scan Re.fragment_engine Sample.default
                     [Sample.a_pdf; Sample.both_pdf]
                     [(Expediente, py "100"); (Sello, py "55")] false [])))
    /\ path r' = file_path Sample.both_pdf.
Proof.
  edestruct (@any_all_monotone Re.fragment_engine Sample.default
               (Sample.corpus [Sample.a_pdf; Sample.both_pdf])
               (py "100") (py "55") []) as [r' [H1 [H2 _]]].
  - vm_compute. reflexivity.
  - vm_compute. reflexivity.
  - vm_compute. reflexivity.
  - left. reflexivity.
  - exists r'. split; [exact H1 | exact H2].
Defined.

(** C4 as stated fails when the cap cuts the ANY scan short.  With
    [max_results = 1] and the files [expediente_100.pdf] and [100_55.pdf],
    in that order, the terms 100 and 55 give [100_55.pdf] under ALL and
    [expediente_100.pdf] alone under ANY. *)
Lemma any_all_cap_counterexample :
  (forall re_search, Re.agrees re_search ->
     exists tr_all r_all tr_any r_any,
       search_pdfs re_search (Sample.searcher 1 false)
         (Sample.corpus [Sample.a_pdf; Sample.both_pdf])
         (py "100") (py "55") [] true
       = (tr_all, Return [r_all])
       /\ path r_all = file_path Sample.both_pdf
       /\ search_pdfs re_search (Sample.searcher 1 false)
            (Sample.corpus [Sample.a_pdf; Sample.both_pdf])
            (py "100") (py "55") [] false
          = (tr_any, Return [r_any])
       /\ path r_any = file_path Sample.a_pdf)
  /\ file_path Sample.both_pdf <> file_path Sample.a_pdf.
Proof.
  split; [|vm_compute; discriminate].
  intros re_search Hre.
  rewrite !(search_pdfs_agree _ _ _ _ _ _ Hre) by (vm_compute; reflexivity).
  eexists _, _, _, _.
  split; [vm_compute; reflexivity|]. split; [reflexivity|].
  split; [vm_compute; reflexivity|]. reflexivity.
Qed.

(** *** The fragment *)

Lemma parse_not_quant c p r : Re.parse (c :: p) = Some r -> Re.is_quant c = false.
Proof.
  destruct (Re.is_quant c) eqn:Q; [|reflexivity].
  unfold Re.is_quant in Q. rewrite !orb_true_iff, !Ascii.eqb_eq in Q.
  destruct Q as [[-> | ->] | ->]; discriminate.
Qed.

Lemma fragment_of_parse p r text ignorecase :
  Re.parse p = Some r ->
  Re.fragment p text ignorecase
  = Some (if Re.search_from ignorecase r text then ReMatch else ReNoMatch).
Proof.
  intros H. unfold Re.fragment. destruct p as [|c p].
  - injection H as <-. now destruct text.
  - rewrite (@parse_not_quant c p r H), H. reflexivity.
Qed.

Lemma search_from_app ignorecase r pre s :
  Re.match_here ignorecase r s = true ->
  Re.search_from ignorecase r (pre ++ s) = true.
Proof.
  intros H. induction pre as [|c pre IH]; cbn [app].
  - destruct s; cbn [Re.search_from]; now rewrite H.
  - cbn [Re.search_from]. rewrite IH. apply orb_true_r.
Qed.

(** A pattern of the fragment that matches at some place of the text is
    what any agreeing engine reports as a match. *)
Lemma agrees_match re_search p r pre s ignorecase :
  Re.agrees re_search ->
  Re.parse p = Some r ->
  Re.match_here ignorecase r s = true ->
  re_search p (pre ++ s) ignorecase = ReMatch.
Proof.
  intros Hre Hp Hm. apply Hre.
  rewrite (@fragment_of_parse p r _ ignorecase Hp),
    (@search_from_app ignorecase r pre s Hm).
  reflexivity.
Qed.

(** *** The loop over the patterns *)

Section TryPatterns.

Variable re_search : engine.
Variable content : str.
Variable ignorecase : bool.

Let try ps := try_patterns re_search ps content ignorecase.
Let passes := goes_on re_search content ignorecase.

Lemma try_patterns_cons pattern ps :
  try (pattern :: ps)
  = match re_search pattern content ignorecase with
    | ReMatch => ([pattern], Return true)
    | ReRaise e => ([pattern], Raise e)
    | ReNoMatch | ReError => (pattern :: fst (try ps), snd (try ps))
    end.
Proof.
  unfold try. cbn [try_patterns].
  destruct (re_search pattern content ignorecase); try reflexivity;
    now destruct (try_patterns _ _ _ _).
Qed.


(** How the loop ends, and what was tried before. *)
Lemma try_patterns_ends ps :
  match snd (try ps) with
  | Return true =>
      exists before pattern,
        fst (try ps) = before ++ [pattern]
        /\ re_search pattern content ignorecase = ReMatch
        /\ forall q, In q before -> passes q
  | Return false => fst (try ps) = ps /\ forall q, In q ps -> passes q
  | Raise e =>
      exists before pattern,
        fst (try ps) = before ++ [pattern]
        /\ re_search pattern content ignorecase = ReRaise e
        /\ forall q, In q before -> passes q
  end.
Proof.
  induction ps as [|pattern ps IH].
  - cbn. split; [reflexivity | intros q []].
  - rewrite try_patterns_cons.
    destruct (re_search pattern content ignorecase) eqn:R; cbn [fst snd].
    + exists [], pattern. split; [reflexivity|]. split; [exact R | intros q []].
    + assert (P : passes pattern) by (now left).
      destruct (snd (try ps)) as [[|]|e].
      * destruct IH as [before [p [E [Rp Hb]]]].
        exists (pattern :: before), p. rewrite E. split; [reflexivity|].
        split; [exact Rp|]. intros q [<- | Hq]; [exact P | now apply Hb].
      * destruct IH as [E Hall]. rewrite E. split; [reflexivity|].
        intros q [<- | Hq]; [exact P | now apply Hall].
      * destruct IH as [before [p [E [Rp Hb]]]].
        exists (pattern :: before), p. rewrite E. split; [reflexivity|].
        split; [exact Rp|]. intros q [<- | Hq]; [exact P | now apply Hb].
    + assert (P : passes pattern) by (now right).
      destruct (snd (try ps)) as [[|]|e].
      * destruct IH as [before [p [E [Rp Hb]]]].
        exists (pattern :: before), p. rewrite E. split; [reflexivity|].
        split; [exact Rp|]. intros q [<- | Hq]; [exact P | now apply Hb].
      * destruct IH as [E Hall]. rewrite E. split; [reflexivity|].
        intros q [<- | Hq]; [exact P | now apply Hall].
      * destruct IH as [before [p [E [Rp Hb]]]].
        exists (pattern :: before), p. rewrite E. split; [reflexivity|].
        split; [exact Rp|]. intros q [<- | Hq]; [exact P | now apply Hb].
    + exists [], pattern. split; [reflexivity|]. split; [exact R | intros q []].
Qed.

(** A pattern that matches is reached, and recorded, as soon as no
    pattern before it raises. *)
Lemma try_patterns_hit before pattern after :
  (forall q, In q before ->
     forall e, re_search q content ignorecase <> ReRaise e) ->
  re_search pattern content ignorecase = ReMatch ->
  snd (try (before ++ pattern :: after)) = Return true.
Proof.
  intros Hb R. induction before as [|q before IH]; cbn [app].
  - rewrite try_patterns_cons, R. reflexivity.
  - rewrite try_patterns_cons.
    assert (IH' : snd (try (before ++ pattern :: after)) = Return true)
      by (apply IH; intros; apply Hb; now right).
    destruct (re_search q content ignorecase) eqn:Rq; cbn [snd];
      try exact IH'; [reflexivity|].
    exfalso. now apply (Hb q (or_introl eq_refl) e).
Qed.

End TryPatterns.

Lemma search_in_content_in re_search self content search_terms ms k :
  search_in_content re_search self content search_terms = Return ms ->
  (In k ms
   <-> exists v, In (k, v) search_terms /\ v <> []
                 /\ term_outcome re_search self content v = Return true).
Proof.
  intros E. apply search_in_content_returns in E. destruct E as [_ ->].
  rewrite in_map_iff. split.
  - intros [[k' v] [<- H]]. apply filter_In in H. destruct H as [Hin Hhit].
    unfold content_hit in Hhit. cbn [fst snd] in *.
    apply andb_true_iff in Hhit. destruct Hhit as [Hne Hfound].
    exists v. split; [exact Hin|]. split; [intros ->; discriminate|].
    destruct (term_outcome re_search self content v) as [[|]|e];
      [reflexivity | discriminate | discriminate].
  - intros [v [Hin [Hne Hfound]]]. exists (k, v). split; [reflexivity|].
    apply filter_In. split; [exact Hin|]. unfold content_hit. cbn [snd].
    rewrite Hfound. destruct v; [congruence | reflexivity].
Qed.


(** One term that is not empty: the field is recorded when its patterns
    end in a match. *)
Lemma single_term_hit re_search self content k term :
  term <> [] ->
  term_outcome re_search self content term = Return true ->
  search_in_content re_search self content [(k, term)] = Return [k].
Proof.
  intros Hne T. unfold search_in_content. cbn [content_loop].
  destruct term as [|c t]; [congruence|]. cbn [is_empty negb].
  unfold term_outcome in T.
  destruct (try_patterns _ _ _ _) as [tried res]. cbn [snd] in T.
  now rewrite T.
Qed.

(** A pattern of the fragment never makes an agreeing engine raise. *)
Lemma agrees_parsed re_search p r text ignorecase e :
  Re.agrees re_search ->
  Re.parse p = Some r ->
  re_search p text ignorecase <> ReRaise e.
Proof.
  intros Hre Hp.
  rewrite (Hre _ _ _ _ (@fragment_of_parse p r text ignorecase Hp)).
  destruct (Re.search_from ignorecase r text); discriminate.
Qed.

(** *** Claims about the two matchers *)

(** C7, as the code has it.  The file name is not run through the
    patterns: a field is a file name match exactly when its term is not
    empty and occurs, letter for letter once both are case folded as
    configured, somewhere in the file name.  The patterns are applied to
    extracted content only. *)
Theorem filename_match_is_substring self filename search_terms k :
  In k (search_in_filename self filename search_terms)
  <-> exists v, In (k, v) search_terms /\ v <> []
                /\ exists pre post,
                     fold_case self filename = pre ++ fold_case self v ++ post.
Proof.
  rewrite search_in_filename_filter, in_map_iff. split.
  - intros [[k' v] [<- H]]. apply filter_In in H. destruct H as [Hin Hhit].
    unfold filename_hit in Hhit. cbn [fst snd] in *.
    apply andb_true_iff in Hhit. destruct Hhit as [Hne Hsub].
    exists v. split; [exact Hin|]. split; [intros ->; discriminate|].
    now apply contains_iff.
  - intros [v [Hin [Hne Hsub]]]. exists (k, v). split; [reflexivity|].
    apply filter_In. split; [exact Hin|]. unfold filename_hit. cbn [snd].
    apply contains_iff in Hsub. rewrite Hsub.
    destruct v; [congruence | reflexivity].
Qed.

(** C7 as stated fails: for the term [123-456] the file name
    [123 456.pdf] is no file name match, in either case mode, while the
    same text handed to the content matcher is a match. *)
Lemma filename_hyphen_counterexample :
  search_in_filename (Sample.searcher 100 false) (py "123 456.pdf")
    [(Expediente, py "123-456")] = []
  /\ search_in_filename (Sample.searcher 100 true) (py "123 456.pdf")
       [(Expediente, py "123-456")] = []
  /\ (forall re_search, Re.agrees re_search ->
        search_in_content re_search (Sample.searcher 100 false)
          (py "123 456.pdf") [(Expediente, py "123-456")]
        = Return [Expediente]).
Proof.
  split; [reflexivity|]. split; [reflexivity|].
  intros re_search Hre.
  rewrite (@search_in_content_agree re_search _ _ _ Hre)
    by (vm_compute; reflexivity).
  reflexivity.
Qed.




(** *** The hyphen variant *)

Lemma lower_char_idem c :
  PyStr.lower_char (PyStr.lower_char c) = PyStr.lower_char c.
Proof. each_ascii c; reflexivity. Qed.

Lemma lower_char_hyphen c :
  Ascii.eqb (PyStr.lower_char c) "-" = Ascii.eqb c "-".
Proof. each_ascii c; reflexivity. Qed.

Lemma lower_char_meta c : Re.is_meta (PyStr.lower_char c) = Re.is_meta c.
Proof. each_ascii c; reflexivity. Qed.

Lemma step_plain done c :
  Re.is_meta c = false ->
  Re.step (done, Re.PNormal) c = Some ((Re.ALit c, Re.QOne) :: done, Re.PNormal).
Proof. each_ascii c; intros H; try discriminate H; reflexivity. Qed.

Lemma read_app st p q :
  Re.read st (p ++ q)
  = match Re.read st p with
    | Some st' => Re.read st' q
    | None => None
    end.
Proof.
  revert st; induction p as [|c p IH]; intros st; cbn [app Re.read].
  - reflexivity.
  - destruct (Re.step st c); [apply IH | reflexivity].
Qed.

Lemma read_hyphen_variant term_search :
  plain term_search = true ->
  forall done,
    Re.read (done, Re.PNormal) (PyStr.replace "-" (py "[-\s]?") term_search)
    = Some (rev (hyphen_pieces term_search) ++ done, Re.PNormal).
Proof.
  unfold plain, PyStr.replace, hyphen_pieces.
  induction term_search as [|c t IH]; [reflexivity|].
  cbn [forallb flat_map map rev]. rewrite andb_true_iff, negb_true_iff.
  intros [Hc Ht] done. rewrite read_app, <- app_assoc. cbn [app].
  unfold hyphen_piece at 2. destruct (Ascii.eqb c "-").
  - change (Re.read (done, Re.PNormal) (py "[-\s]?"))
      with (Some ((Re.ASet [Re.CChar "-"; Re.CSpace], Re.QOpt) :: done,
                  Re.PNormal)).
    now apply IH.
  - cbn [Re.read]. rewrite (@step_plain done c Hc). now apply IH.
Qed.

Lemma parse_hyphen_variant term_search :
  plain term_search = true ->
  Re.parse (PyStr.replace "-" (py "[-\s]?") term_search)
  = Some (hyphen_pieces term_search).
Proof.
  intros H. unfold Re.parse. rewrite (@read_hyphen_variant term_search H).
  now rewrite app_nil_r, rev_involutive.
Qed.

Lemma match_hyphen_pieces ignorecase (g : ascii -> ascii) :
  (forall c, Ascii.eqb (g c) "-" = Ascii.eqb c "-") ->
  (forall c, Re.chr_eq ignorecase (g c) c = true) ->
  forall term post,
    Re.match_here ignorecase (hyphen_pieces (map g term))
      (delete_hyphens term ++ post) = true.
Proof.
  intros Hhyphen Heq. unfold hyphen_pieces, delete_hyphens, PyStr.replace.
  induction term as [|c t IH]; intros post; [reflexivity|].
  cbn [map flat_map]. unfold hyphen_piece at 1. rewrite Hhyphen.
  destruct (Ascii.eqb c "-"); cbn [app Re.match_here].
  - now rewrite IH.
  - cbn [Re.one Re.atom_ok]. now rewrite Heq, IH.
Qed.

Lemma match_hyphen_fold_case self term post :
  Re.match_here (negb (case_sensitive self))
    (hyphen_pieces (fold_case self term)) (delete_hyphens term ++ post) = true.
Proof.
  unfold fold_case. destruct (case_sensitive self); cbn [negb].
  - rewrite <- (map_id term) at 1.
    apply match_hyphen_pieces; intros c; [reflexivity|].
    apply Ascii.eqb_refl.
  - apply (match_hyphen_pieces true PyStr.lower_char); intros c.
    + apply lower_char_hyphen.
    + unfold Re.chr_eq. rewrite lower_char_idem. apply Ascii.eqb_refl.
Qed.

Lemma plain_fold_case self term : plain (fold_case self term) = plain term.
Proof.
  unfold fold_case, plain, PyStr.lower. destruct (case_sensitive self);
    [reflexivity|]. cbn [negb].
  induction term as [|c t IH]; [reflexivity|].
  cbn [map forallb]. now rewrite lower_char_meta, IH.
Qed.

Lemma read_escaped_char done c :
  Re.read (done, Re.PNormal)
    (if Re.is_special c then ["\"%char; c] else [c])
  = Some ((Re.ALit c, Re.QOne) :: done, Re.PNormal).
Proof. each_ascii c; reflexivity. Qed.

Lemma read_escape term_search :
  forall done,
    Re.read (done, Re.PNormal) (Re.escape term_search)
    = Some (rev (lit_pieces term_search) ++ done, Re.PNormal).
Proof.
  unfold Re.escape, lit_pieces.
  induction term_search as [|c t IH]; intros done; [reflexivity|].
  cbn [flat_map map rev]. rewrite read_app, read_escaped_char, IH.
  now rewrite <- app_assoc.
Qed.

Lemma parse_escape term_search :
  Re.parse (Re.escape term_search) = Some (lit_pieces term_search).
Proof.
  unfold Re.parse. rewrite read_escape.
  now rewrite app_nil_r, rev_involutive.
Qed.

Lemma read_plain term_search :
  plain term_search = true ->
  forall done,
    Re.read (done, Re.PNormal) term_search
    = Some (rev (lit_pieces term_search) ++ done, Re.PNormal).
Proof.
  unfold plain, lit_pieces.
  induction term_search as [|c t IH]; [reflexivity|].
  cbn [forallb map rev]. rewrite andb_true_iff, negb_true_iff.
  intros [Hc Ht] done. cbn [Re.read]. rewrite (@step_plain done c Hc).
  rewrite (IH Ht). now rewrite <- app_assoc.
Qed.

Lemma parse_plain term_search :
  plain term_search = true ->
  Re.parse term_search = Some (lit_pieces term_search).
Proof.
  intros H. unfold Re.parse. rewrite (@read_plain term_search H).
  now rewrite app_nil_r, rev_involutive.
Qed.

(** The patterns of a plain term never make an agreeing engine raise:
    here the first two. *)
Lemma plain_term_and_escape re_search term_search content ignorecase q e :
  Re.agrees re_search ->
  plain term_search = true ->
  In q [term_search; Re.escape term_search] ->
  re_search q content ignorecase <> ReRaise e.
Proof.
  intros Hre Hplain [<- | [<- | []]].
  - eapply agrees_parsed; [exact Hre | now apply parse_plain].
  - eapply agrees_parsed; [exact Hre | apply parse_escape].
Qed.

Lemma match_hyphen_lowered term post :
  Re.match_here true (hyphen_pieces (PyStr.lower term))
    (delete_hyphens (PyStr.lower term) ++ post) = true.
Proof.
  rewrite <- (map_id (PyStr.lower term)) at 1.
  apply match_hyphen_pieces; intros c; [reflexivity|].
  unfold Re.chr_eq. apply Ascii.eqb_refl.
Qed.

(** C10, as the code has it.  For a term with an internal hyphen and no
    character that is special in a pattern, the content matcher records
    the field in any content that contains the term with its hyphens
    deleted, in either case mode: the hyphen variant makes each hyphen an
    optional set.  When case is ignored the same holds of content that
    contains the lowered term with its hyphens deleted, which is how the
    extractor hands the text over. *)
Theorem hyphen_variant_matches_deleted re_search self k term pre post :
  Re.agrees re_search ->
  internal_hyphen term = true ->
  plain term = true ->
  search_in_content re_search self (pre ++ delete_hyphens term ++ post)
    [(k, term)] = Return [k]
  /\ (case_sensitive self = false ->
      search_in_content re_search self
        (pre ++ delete_hyphens (PyStr.lower term) ++ post) [(k, term)]
      = Return [k]).
Proof.
  intros Hre Hhyphen Hplain.
  assert (Hne : term <> []) by (destruct term; [discriminate | discriminate]).
  assert (Hparse : Re.parse (PyStr.replace "-" (py "[-\s]?") (fold_case self term))
                   = Some (hyphen_pieces (fold_case self term)))
    by (apply parse_hyphen_variant; now rewrite plain_fold_case).
  assert (Hhit : forall content,
             re_search (PyStr.replace "-" (py "[-\s]?") (fold_case self term))
               content (negb (case_sensitive self)) = ReMatch ->
             search_in_content re_search self content [(k, term)]
             = Return [k]).
  { intros content R. apply single_term_hit; [exact Hne|].
    unfold term_outcome.
    change (patterns (fold_case self term))
      with ([fold_case self term; Re.escape (fold_case self term)]
              ++ PyStr.replace "-" (py "[-\s]?") (fold_case self term)
                 :: [PyStr.replace "/" (py "[/\s]?") (fold_case self term);
                     PyStr.replace " " (py "\s+") (fold_case self term)]).
    apply try_patterns_hit; [|exact R].
    intros q Hq e. eapply plain_term_and_escape; [exact Hre | |exact Hq].
    now rewrite plain_fold_case. }
  split.
  - apply Hhit. eapply agrees_match; [exact Hre | exact Hparse|].
    apply match_hyphen_fold_case.
  - intros Hcs. apply Hhit.
    eapply agrees_match; [exact Hre | exact Hparse|].
    unfold fold_case. rewrite Hcs. cbn [negb]. apply match_hyphen_lowered.
Qed.

Lemma hyphen_variant_matches_deleted_witness :
  search_in_content Re.fragment_engine Sample.default
    (py "expediente 123456 del juzgado") [(Expediente, py "123-456")]
  = Return [Expediente].
Proof.
  exact (proj1 (@hyphen_variant_matches_deleted Re.fragment_engine
                  Sample.default Expediente (py "123-456")
                  (py "expediente ") (py " del juzgado")
                  fragment_engine_agrees eq_refl eq_refl)).
Defined.

(** C10 as stated fails for a term with a character that is special in
    a pattern: [a+-1] has an internal hyphen and [a+1] is that term
    without it, yet none of the five patterns matches [a+1]. *)
Lemma hyphen_deleted_counterexample :
  internal_hyphen (py "a+-1") = true
  /\ PyStr.contains (delete_hyphens (py "a+-1")) (py "a+1") = true
  /\ (forall re_search, Re.agrees re_search ->
        search_in_content re_search (Sample.searcher 100 false) (py "a+1")
          [(Expediente, py "a+-1")] = Return []
        /\ search_in_content re_search (Sample.searcher 100 true) (py "a+1")
             [(Expediente, py "a+-1")] = Return []).
Proof.
  split; [reflexivity|]. split; [reflexivity|].
  intros re_search Hre.
  rewrite !(@search_in_content_agree re_search _ _ _ Hre)
    by (vm_compute; reflexivity).
  split; reflexivity.
Qed.

(** *** A pattern that raises *)






(** *** Scenarios *)

(** The corpus of two files: [expediente_100.pdf] without text, and
    [b.pdf] whose text names a seal and a title. *)
Example scenario_one_term :
  map filename
    (sort_results
       (snd (scan Re.fragment_engine Sample.default
               [Sample.a_pdf; Sample.b_pdf] [(Expediente, py "100")] false [])))
  = [py "expediente_100.pdf"].
Proof. vm_compute. reflexivity. Qed.

Example scenario_all :
  search_pdfs Re.fragment_engine Sample.default
    (Sample.corpus [Sample.a_pdf; Sample.b_pdf]) (py "100") (py "55") [] true
  = ([EvExists; EvGlob true;
      EvOpenPdf (file_path Sample.a_pdf); EvOpenPdf (file_path Sample.b_pdf)],
     Return []).
Proof. vm_compute. reflexivity. Qed.

Example scenario_any :
  map filename
    (sort_results
       (snd (scan Re.fragment_engine Sample.default
               [Sample.a_pdf; Sample.b_pdf]
               [(Expediente, py "100"); (Sello, py "55")] false [])))
  = [py "b.pdf"; py "expediente_100.pdf"].
Proof. vm_compute. reflexivity. Qed.

(** A file that matches by name but can be neither read nor examined:
    its text is empty, its [stat()] raises, and the other file is
    returned all the same. *)
Example scenario_broken_file :
  snd (process_file Re.fragment_engine Sample.default Sample.broken_pdf
         [(Expediente, py "100")] true)
  = Raise OSError
  /\ map filename
       (snd (scan Re.fragment_engine Sample.default
               [Sample.broken_pdf; Sample.a_pdf] [(Expediente, py "100")]
               true []))
     = [py "expediente_100.pdf"].
Proof. split; vm_compute; reflexivity. Qed.

(** A term that is no pattern: [+54] raises [re.error], its escaped form
    is tried next and matches. *)
Example scenario_malformed_pattern :
  try_patterns Re.fragment_engine (patterns (py "+54")) (py "tel +54 11") true
  = ([py "+54"; Re.escape (py "+54")], Return true).
Proof. vm_compute. reflexivity. Qed.

(** A term Python refuses to compile with [OverflowError].  A file that
    holds it in its name is returned under ANY, where its content is not
    looked at; under ALL the content is matched, the exception leaves
    the matcher and the scan passes over the file. *)
Example scenario_overflow :
  let f := Sample.file "a{4294967296}.pdf" (Some [Some (py "a{4294967296}")])
             (Some {| st_size := 40; st_mtime := 11 |}) in
  map filename
    (snd (scan refusing_engine Sample.default [f]
            [(Expediente, py "a{4294967296}")] false []))
  = [py "a{4294967296}.pdf"]
  /\ process_file refusing_engine Sample.default f
       [(Expediente, py "a{4294967296}")] true
     = ([EvOpenPdf (file_path f)], Raise OverflowError)
  /\ scan refusing_engine Sample.default [f]
       [(Expediente, py "a{4294967296}")] true []
     = ([EvOpenPdf (file_path f)], []).
Proof. repeat split; vm_compute; reflexivity. Qed.

(** Case is ignored unless the configuration says otherwise. *)
Example scenario_case :
  search_in_filename (Sample.searcher 100 false) (py "expediente123.pdf")
    [(Expediente, py "Expediente123")] = [Expediente]
  /\ search_in_filename (Sample.searcher 100 true) (py "expediente123.pdf")
       [(Expediente, py "Expediente123")] = [].
Proof. split; reflexivity. Qed.

(** *** Stripping *)

Section Strip.

Variable drop : ascii -> bool.

Lemma lstrip_by_length s : length (lstrip_by drop s) <= length s.
Proof.
  induction s as [|c s IH]; cbn [lstrip_by length]; [lia|].
  destruct (drop c); cbn [length]; lia.
Qed.

Lemma lstrip_by_fixed s :
  lstrip_by drop s = s <-> head_ok (fun c => negb (drop c)) s = true.
Proof.
  destruct s as [|c s]; cbn [lstrip_by head_ok]; [tauto|].
  destruct (drop c) eqn:D; cbn [negb]; [|tauto].
  split; [|discriminate]. intros E.
  pose proof (lstrip_by_length s) as L. rewrite E in L. cbn [length] in L. lia.
Qed.

Lemma lstrip_by_head s : head_ok (fun c => negb (drop c)) (lstrip_by drop s) = true.
Proof.
  induction s as [|c s IH]; cbn [lstrip_by]; [reflexivity|].
  destruct (drop c) eqn:D; [exact IH|]. cbn [head_ok]. now rewrite D.
Qed.

Lemma lstrip_by_dropped pre s :
  forallb drop pre = true -> lstrip_by drop (pre ++ s) = lstrip_by drop s.
Proof.
  induction pre as [|c pre IH]; cbn [forallb app lstrip_by]; [reflexivity|].
  rewrite andb_true_iff. intros [-> H]. now apply IH.
Qed.

Lemma lstrip_by_all l : forallb drop l = true -> lstrip_by drop l = [].
Proof.
  intros H. rewrite <- (app_nil_r l). now rewrite (lstrip_by_dropped l [] H).
Qed.

Lemma lstrip_by_kept s post :
  s <> [] -> head_ok (fun c => negb (drop c)) s = true ->
  lstrip_by drop (s ++ post) = s ++ post.
Proof.
  destruct s as [|c s]; [congruence|]. intros _. cbn [head_ok app lstrip_by].
  now intros ->%negb_true_iff.
Qed.

Lemma forallb_rev (l : str) : forallb drop (rev l) = forallb drop l.
Proof.
  induction l as [|c l IH]; [reflexivity|].
  cbn [rev forallb]. rewrite forallb_app, IH. cbn [forallb].
  rewrite andb_true_r. apply andb_comm.
Qed.

(** Padding made of dropped characters does not change what is left. *)
Lemma strip_by_padding pre s post :
  forallb drop pre = true -> forallb drop post = true ->
  strip_by drop (pre ++ s ++ post) = strip_by drop s.
Proof.
  intros Hpre Hpost. unfold strip_by. rewrite (lstrip_by_dropped pre _ Hpre).
  destruct (lstrip_by drop s) as [|c r] eqn:E.
  - assert (A : forallb drop s = true).
    { clear -E. induction s as [|c s IH]; [reflexivity|].
      cbn [lstrip_by forallb] in *. destruct (drop c); [now apply IH | discriminate]. }
    rewrite (lstrip_by_dropped s post A), (lstrip_by_all post Hpost).
    reflexivity.
  - assert (A : exists dropped, s = dropped ++ c :: r /\ forallb drop dropped = true).
    { clear -E. induction s as [|d s IH]; [discriminate|].
      cbn [lstrip_by] in E. destruct (drop d) eqn:D.
      - destruct (IH E) as [dropped [-> F]]. exists (d :: dropped).
        cbn [forallb app]. now rewrite D, F.
      - exists []. now rewrite E. }
    destruct A as [dropped [-> F]]. rewrite <- app_assoc.
    rewrite (lstrip_by_dropped dropped _ F).
    pose proof (lstrip_by_head (dropped ++ c :: r)) as H. rewrite E in H.
    rewrite (@lstrip_by_kept (c :: r) post) by (congruence || exact H).
    rewrite rev_app_distr, lstrip_by_dropped by (now rewrite forallb_rev).
    reflexivity.
Qed.

(** What is left neither starts nor ends with a dropped character. *)
Lemma strip_by_ends s :
  head_ok (fun c => negb (drop c)) (strip_by drop s) = true
  /\ head_ok (fun c => negb (drop c)) (rev (strip_by drop s)) = true.
Proof.
  unfold strip_by. rewrite rev_involutive. split; [|apply lstrip_by_head].
  set (y := lstrip_by drop s).
  assert (Hy : head_ok (fun c => negb (drop c)) y = true) by apply lstrip_by_head.
  clearbody y. destruct y as [|c y]; [reflexivity|]. cbn [head_ok] in Hy.
  assert (A : exists z, lstrip_by drop (rev (c :: y)) = z ++ [c]).
  { cbn [rev]. generalize (rev y). intros l.
    induction l as [|d l [z IH]]; cbn [app lstrip_by].
    - apply negb_true_iff in Hy. rewrite Hy. now exists [].
    - destruct (drop d); [now exists z | now exists (d :: l)]. }
  destruct A as [z ->]. rewrite rev_app_distr. exact Hy.
Qed.

Lemma strip_by_fixed s :
  head_ok (fun c => negb (drop c)) s = true ->
  head_ok (fun c => negb (drop c)) (rev s) = true ->
  strip_by drop s = s.
Proof.
  intros H1 H2. unfold strip_by.
  rewrite (proj2 (lstrip_by_fixed s) H1), (proj2 (lstrip_by_fixed (rev s)) H2).
  apply rev_involutive.
Qed.

Lemma strip_by_idem s : strip_by drop (strip_by drop s) = strip_by drop s.
Proof. apply strip_by_fixed; apply strip_by_ends. Qed.

End Strip.

Lemma strip_is_strip_by s : PyStr.strip s = strip_by PyStr.isspace s.
Proof.
  assert (L : forall x, PyStr.lstrip x = lstrip_by PyStr.isspace x).
  { induction x as [|c x IH]; cbn [PyStr.lstrip lstrip_by]; [reflexivity|].
    now rewrite IH. }
  unfold PyStr.strip, PyStr.rstrip, strip_by. now rewrite !L.
Qed.

Lemma head_ok_weaken (ok ok' : ascii -> bool) s :
  (forall c, ok c = true -> ok' c = true) ->
  head_ok ok s = true -> head_ok ok' s = true.
Proof. destruct s as [|c s]; cbn [head_ok]; auto. Qed.

Lemma unquoted_ends q p :
  is_quote q = true ->
  unquoted p = true ->
  head_ok (fun c => negb (existsb (Ascii.eqb c) [q])) p = true
  /\ head_ok (fun c => negb (existsb (Ascii.eqb c) [q])) (rev p) = true.
Proof.
  intros Hq. unfold unquoted. rewrite andb_true_iff.
  assert (W : forall c, negb (is_quote c) = true ->
                        negb (existsb (Ascii.eqb c) [q]) = true).
  { intros c Hc. cbn [existsb]. rewrite orb_false_r.
    destruct (Ascii.eqb c q) eqn:E; [|reflexivity].
    apply Ascii.eqb_eq in E. subst c. now rewrite Hq in Hc. }
  intros [H1 H2].
  split;
    [exact (@head_ok_weaken (fun c => negb (is_quote c))
              (fun c => negb (existsb (Ascii.eqb c) [q])) p W H1)
    |exact (@head_ok_weaken (fun c => negb (is_quote c))
              (fun c => negb (existsb (Ascii.eqb c) [q])) (rev p) W H2)].
Qed.

(** X1. A configured directory that neither starts nor ends with a
    quote is taken as it is, and the same directory written between
    double quotes or between apostrophes gives the same
    [search_directory]. *)
Theorem search_directory_unquotes p :
  unquoted p = true ->
  search_directory_of p = p
  /\ search_directory_of (dquote :: p ++ [dquote]) = p
  /\ search_directory_of (squote :: p ++ [squote]) = p.
Proof.
  intros H.
  destruct (@unquoted_ends dquote p eq_refl H) as [D1 D2].
  destruct (@unquoted_ends squote p eq_refl H) as [S1 S2].
  assert (Ed : strip_chars [dquote] p = p) by now apply strip_by_fixed.
  assert (Es : strip_chars [squote] p = p) by now apply strip_by_fixed.
  unfold search_directory_of. split; [|split].
  - now rewrite Ed.
  - change (dquote :: p ++ [dquote]) with ([dquote] ++ p ++ [dquote]).
    unfold strip_chars at 2. rewrite strip_by_padding by reflexivity.
    fold (strip_chars [dquote] p). now rewrite Ed.
  - assert (E : strip_chars [dquote] (squote :: p ++ [squote])
                = squote :: p ++ [squote]).
    { apply strip_by_fixed; [reflexivity|].
      cbn [rev]. rewrite rev_app_distr. reflexivity. }
    rewrite E. change (squote :: p ++ [squote]) with ([squote] ++ p ++ [squote]).
    unfold strip_chars. rewrite strip_by_padding by reflexivity.
    exact Es.
Qed.

Lemma search_directory_unquotes_witness :
  search_directory_of (py "./pdfs") = py "./pdfs"
  /\ search_directory_of (dquote :: py "./pdfs" ++ [dquote]) = py "./pdfs"
  /\ search_directory_of (squote :: py "./pdfs" ++ [squote]) = py "./pdfs".
Proof.
  apply (@search_directory_unquotes (py "./pdfs")). reflexivity.
Defined.

(** X2. Whatever the configured text, [search_directory] neither starts
    nor ends with an apostrophe. *)
Theorem search_directory_no_apostrophe raw_directory :
  (forall rest, search_directory_of raw_directory <> squote :: rest)
  /\ (forall rest, search_directory_of raw_directory <> rest ++ [squote]).
Proof.
  unfold search_directory_of, strip_chars.
  set (inner := strip_by _ raw_directory).
  destruct (strip_by_ends (fun c => existsb (Ascii.eqb c) [squote]) inner)
    as [H1 H2].
  split; intros rest E.
  - rewrite E in H1. discriminate H1.
  - rewrite E, rev_app_distr in H2. discriminate H2.
Qed.

(** X3. White space around the terms of a query changes nothing: the
    call does what it does on the bare terms. *)
Theorem search_ignores_padding re_search self fs expediente sello caratula
    match_all w1 w2 w3 w4 w5 w6 :
  forallb PyStr.isspace (w1 ++ w2 ++ w3 ++ w4 ++ w5 ++ w6) = true ->
  search_pdfs re_search self fs (w1 ++ expediente ++ w2) (w3 ++ sello ++ w4)
    (w5 ++ caratula ++ w6) match_all
  = search_pdfs re_search self fs expediente sello caratula match_all.
Proof.
  rewrite !forallb_app, !andb_true_iff.
  intros [H1 [H2 [H3 [H4 [H5 H6]]]]].
  unfold search_pdfs, search_terms_of.
  rewrite !strip_is_strip_by, !strip_by_padding by assumption.
  reflexivity.
Qed.

Lemma search_ignores_padding_witness :
  search_pdfs Re.fragment_engine Sample.default
    (Sample.corpus [Sample.a_pdf; Sample.b_pdf])
    (py "  100 ") (py " 55") (py " ") false
  = search_pdfs Re.fragment_engine Sample.default
      (Sample.corpus [Sample.a_pdf; Sample.b_pdf]) (py "100") (py "55") []
      false.
Proof.
  apply (@search_ignores_padding Re.fragment_engine Sample.default
           (Sample.corpus [Sample.a_pdf; Sample.b_pdf])
           (py "100") (py "55") [] false
           (py "  ") (py " ") (py " ") [] (py " ") []).
  reflexivity.
Defined.

(** *** The extractor *)

Lemma read_pages_join texts text :
  read_pages (map Some texts) text = Return (text ++ join_pages texts).
Proof.
  unfold join_pages. revert text.
  induction texts as [|page_text texts IH]; intros text; cbn [map read_pages].
  - cbn. now rewrite app_nil_r.
  - cbn [filter]. destruct (negb (is_empty page_text)); [|apply IH].
    rewrite IH. cbn [flat_map]. now rewrite <- !app_assoc.
Qed.

(** X4. When the PDF opens and its first five pages can be read, the
    extractor opens the file once and returns the texts of those pages in
    order, the empty ones left out and each of the others followed by a
    line feed, lowered unless the search is case sensitive. *)
Theorem extract_text_joins_pages self f pages texts :
  pdf_pages f = Some pages ->
  firstn 5 pages = map Some texts ->
  extract_text_from_pdf self f
  = ([EvOpenPdf (file_path f)], Return (fold_case self (join_pages texts))).
Proof.
  intros Hp Hf. unfold extract_text_from_pdf, read_pdf.
  rewrite Hp, Hf, read_pages_join. reflexivity.
Qed.

Lemma extract_text_joins_pages_witness :
  extract_text_from_pdf Sample.default Sample.b_pdf
  = ([EvOpenPdf (file_path Sample.b_pdf)],
     Return (fold_case Sample.default
               (join_pages [py "sello 55 caratula Juan Perez"]))).
Proof.
  apply (@extract_text_joins_pages Sample.default Sample.b_pdf
           [Some (py "sello 55 caratula Juan Perez")]
           [py "sello 55 caratula Juan Perez"]); reflexivity.
Defined.

(** X5. Two documents with the same first five pages give the same
    text, whatever follows: a later page is never read, so it may even be
    unreadable. *)
Theorem extract_ignores_later_pages self f g front back back' :
  length front = 5 ->
  pdf_pages f = Some (front ++ back) ->
  pdf_pages g = Some (front ++ back') ->
  pdf_text self f = pdf_text self g.
Proof.
  intros Hlen Hf Hg.
  unfold pdf_text, extract_text_from_pdf, read_pdf. rewrite Hf, Hg.
  assert (E : forall rest, firstn 5 (front ++ rest) = front).
  { intros rest. rewrite firstn_app, Hlen, Nat.sub_diag.
    rewrite firstn_O, app_nil_r. apply firstn_all2. lia. }
  rewrite !E. cbn [bind tell].
  destruct (read_pages front []); reflexivity.
Qed.

Lemma extract_ignores_later_pages_witness :
  pdf_text Sample.default
    (Sample.file "long.pdf"
       (Some (map Some [py "A"; py "B"; py "C"; py "D"; py "E"] ++ [None]))
       None)
  = pdf_text Sample.default
      (Sample.file "short.pdf"
         (Some (map Some [py "A"; py "B"; py "C"; py "D"; py "E"] ++ []))
         None).
Proof.
  apply (@extract_ignores_later_pages Sample.default _ _
           (map Some [py "A"; py "B"; py "C"; py "D"; py "E"]) [None] []);
    reflexivity.
Defined.

Lemma lower_char_not_upper c : PyStr.isupper (PyStr.lower_char c) = false.
Proof. each_ascii c; reflexivity. Qed.

(** X6. Unless the search is case sensitive, the text the extractor
    returns has no capital letter, whatever the document (the empty text
    of a failure included). *)
Theorem extracted_text_is_lowered self f :
  case_sensitive self = false ->
  Forall (fun c => PyStr.isupper c = false) (pdf_text self f).
Proof.
  intros Hcs.
  assert (E : exists x, pdf_text self f = PyStr.lower x).
  { unfold pdf_text, extract_text_from_pdf, read_pdf.
    destruct (pdf_pages f) as [pages|]; [|now exists []].
    destruct (read_pages (firstn 5 pages) []) as [text|e]; [|now exists []].
    exists text. cbn. unfold fold_case. now rewrite Hcs. }
  destruct E as [x ->]. unfold PyStr.lower. apply Forall_map.
  apply Forall_forall. intros c _. apply lower_char_not_upper.
Qed.

Lemma extracted_text_is_lowered_witness :
  Forall (fun c => PyStr.isupper c = false)
    (pdf_text Sample.default Sample.b_pdf).
Proof.
  apply extracted_text_is_lowered. reflexivity.
Defined.

(** *** The sort, again *)

Lemma insert_desc_same_key a x l :
  filter (same_key a) (insert_desc x l)
  = filter (same_key a) (x :: l).
Proof.
  induction l as [|y l IH]; cbn [insert_desc]; [reflexivity|].
  destruct (key_ltb x y) eqn:K; [|reflexivity].
  cbn [filter] in *. rewrite IH.
  destruct (same_key a x) eqn:Sx, (same_key a y) eqn:Sy; try reflexivity.
  exfalso. unfold same_key, key_ltb in *.
  rewrite andb_true_iff, Nat.eqb_eq, Z.eqb_eq in Sx, Sy.
  rewrite orb_true_iff, andb_true_iff, Nat.ltb_lt, Nat.eqb_eq, Z.ltb_lt in K.
  lia.
Qed.

(** X7. The sort only reorders, and it is stable: the results that share
    a score and a modification time come out in the order the scan found
    them. *)
Theorem sort_results_stable l :
  Permutation (sort_results l) l
  /\ forall a, filter (same_key a) (sort_results l) = filter (same_key a) l.
Proof.
  split; [apply sort_results_perm|]. intros a.
  induction l as [|x l IH]; [reflexivity|].
  cbn [sort_results fold_right]. rewrite insert_desc_same_key.
  cbn [filter]. fold (sort_results l). now rewrite IH.
Qed.

(** *** What a result is made of *)

Lemma search_pdfs_result re_search self fs expediente sello caratula match_all
    tr out r :
  search_pdfs re_search self fs expediente sello caratula match_all
  = (tr, Return out) ->
  In r out ->
  is_empty (search_terms_of expediente sello caratula) = false
  /\ exists f st,
       In f (pdf_files_of self fs)
       /\ included re_search self f
            (search_terms_of expediente sello caratula) match_all = true
       /\ file_stat f = Some st
       /\ r = result_of re_search self f
                (search_terms_of expediente sello caratula) match_all st.
Proof.
  intros E Hr.
  destruct (is_empty (search_terms_of expediente sello caratula)) eqn:Hne.
  { rewrite search_pdfs_no_terms in E by assumption.
    injection E as _ <-. destruct Hr. }
  split; [reflexivity|].
  destruct (root_exists fs) eqn:Hroot.
  2:{ rewrite search_pdfs_no_root in E by assumption. discriminate. }
  rewrite search_pdfs_scan in E by assumption. injection E as _ <-.
  apply (Permutation_in _ (sort_results_perm _)) in Hr.
  destruct (scan_appends re_search self
              (search_terms_of expediente sello caratula) match_all
              (pdf_files_of self fs) []) as [more [Em F]].
  rewrite Em in Hr. cbn [app] in Hr.
  rewrite Forall_forall in F. destruct (F r Hr) as [f [Hf C]].
  unfold contribution in C.
  destruct (content_outcome _ _ _ _ _); [|discriminate].
  destruct (included _ _ _ _ _) eqn:I; [|discriminate].
  destruct (file_stat f) as [st|] eqn:S; [|discriminate].
  injection C as <-. now exists f, st.
Qed.

Lemma search_in_filename_keys self filename search_terms :
  incl (search_in_filename self filename search_terms) (map fst search_terms).
Proof.
  rewrite search_in_filename_filter. intros k Hk.
  apply in_map_iff in Hk. destruct Hk as [kv [<- H]].
  apply filter_In in H. apply in_map. tauto.
Qed.

Lemma search_in_content_keys re_search self content search_terms ms :
  search_in_content re_search self content search_terms = Return ms ->
  incl ms (map fst search_terms).
Proof.
  intros E. apply search_in_content_returns in E. destruct E as [_ ->].
  intros k Hk.
  apply in_map_iff in Hk. destruct Hk as [kv [<- H]].
  apply filter_In in H. apply in_map. tauto.
Qed.

Lemma matches_of_keys re_search self f search_terms match_all :
  incl (matches_of re_search self f search_terms match_all)
    (map fst search_terms).
Proof.
  unfold matches_of, all_matches_of, content_matches_of, content_outcome.
  intros k Hk.
  apply nodup_In, in_app_or in Hk. destruct Hk as [Hk | Hk].
  - eapply search_in_filename_keys. exact Hk.
  - destruct (extracts _ _ _ _); [|destruct Hk].
    destruct (search_in_content re_search self (pdf_text self f) search_terms)
      as [ms|e] eqn:E; [|destruct Hk].
    eapply search_in_content_keys; eassumption.
Qed.

Lemma search_terms_keys expediente sello caratula :
  NoDup (map fst (search_terms_of expediente sello caratula))
  /\ length (search_terms_of expediente sello caratula) <= 3.
Proof.
  unfold search_terms_of. cbn [filter snd].
  destruct (PyStr.strip expediente), (PyStr.strip sello),
    (PyStr.strip caratula); cbn; split; try lia;
    repeat constructor; cbn; intuition discriminate.
Qed.

(** X8. Every result of a call carries as [matches] the fields matched
    in its file name or its content, each once and each a field of the
    query; its [relevance_score] is their number, at least 1 and at most
    the number of terms of the query, itself at most 3; and under
    [match_all] the score is exactly the number of terms. *)
Theorem result_matches_and_score re_search self fs expediente sello caratula
    match_all tr out r :
  search_pdfs re_search self fs expediente sello caratula match_all
  = (tr, Return out) ->
  In r out ->
  let search_terms := search_terms_of expediente sello caratula in
  NoDup (matches r)
  /\ (forall k, In k (matches r)
                <-> In k (filename_matches r) \/ In k (content_matches r))
  /\ incl (matches r) (map fst search_terms)
  /\ relevance_score r = length (matches r)
  /\ 1 <= relevance_score r <= length search_terms
  /\ length search_terms <= 3
  /\ (match_all = true -> relevance_score r = length search_terms).
Proof.
  intros E Hr search_terms.
  destruct (@search_pdfs_result _ _ _ _ _ _ _ _ _ _ E Hr)
    as [Hne [f [st [_ [I [_ ->]]]]]].
  fold search_terms in Hne, I |- *.
  destruct (search_terms_keys expediente sello caratula) as [Kn Kl].
  fold search_terms in Kn, Kl.
  unfold result_of.
  cbn [matches filename_matches content_matches relevance_score].
  set (ms := matches_of re_search self f search_terms match_all) in *.
  assert (Hnd : NoDup ms) by apply NoDup_nodup.
  assert (Hincl : incl ms (map fst search_terms)) by apply matches_of_keys.
  assert (Hle : length ms <= length search_terms).
  { rewrite <- (length_map fst search_terms).
    now apply NoDup_incl_length. }
  assert (Hall : match_all = true -> length ms = length search_terms).
  { intros ->. apply Nat.le_antisymm; [exact Hle|].
    rewrite <- (length_map fst search_terms).
    apply NoDup_incl_length; [exact Kn|].
    unfold included, should_include in I. fold ms in I.
    rewrite forallb_forall in I. intros k Hk.
    apply field_mem_in. now apply I. }
  assert (Hpos : 1 <= length ms).
  { destruct match_all.
    - rewrite Hall by reflexivity.
      destruct search_terms; [discriminate | cbn; lia].
    - unfold included, should_include in I. fold ms in I.
      apply Nat.ltb_lt in I. lia. }
  split; [exact Hnd|]. split.
  { intros k. subst ms. unfold matches_of, all_matches_of.
    rewrite nodup_In, in_app_iff. reflexivity. }
  split; [exact Hincl|]. split; [reflexivity|].
  split; [lia|]. split; [exact Kl | exact Hall].
Qed.

Lemma result_matches_and_score_witness :
  let r := result_of Re.fragment_engine Sample.default Sample.both_pdf
             [(Expediente, py "100"); (Sello, py "55")] true
             {| st_size := 30; st_mtime := 9 |} in
  1 <= relevance_score r <= 2.
Proof.
  intros r.
  refine (proj1 (proj2 (proj2 (proj2 (proj2
            (@result_matches_and_score Re.fragment_engine Sample.default
               (Sample.corpus [Sample.a_pdf; Sample.both_pdf])
               (py "100") (py "55") [] true _ _ r _ _)))))).
  - vm_compute. reflexivity.
  - left. reflexivity.
Defined.

(** X9. Every result of a call describes a file of the listing the
    call made (the recursive one or the flat one, as configured): it has
    that file's name, path and relative path, and the size and
    modification time its [stat()] answered. *)
Theorem result_comes_from_listing re_search self fs expediente sello caratula
    match_all tr out r :
  search_pdfs re_search self fs expediente sello caratula match_all
  = (tr, Return out) ->
  In r out ->
  exists f st,
    In f (if search_subdirectories self then rglob_pdf fs else glob_pdf fs)
    /\ file_stat f = Some st
    /\ filename r = file_name f
    /\ path r = file_path f
    /\ relative_path r = file_relative f
    /\ size r = st_size st
    /\ modified r = st_mtime st.
Proof.
  intros E Hr.
  destruct (@search_pdfs_result _ _ _ _ _ _ _ _ _ _ E Hr)
    as [_ [f [st [Hf [_ [S ->]]]]]].
  exists f, st. now repeat split.
Qed.

Lemma result_comes_from_listing_witness :
  exists f st,
    In f [Sample.a_pdf; Sample.both_pdf]
    /\ file_stat f = Some st
    /\ py "100_55.pdf" = file_name f
    /\ file_path Sample.both_pdf = file_path f
    /\ py "100_55.pdf" = file_relative f
    /\ 30%Z = st_size st
    /\ 9%Z = st_mtime st.
Proof.
  refine (@result_comes_from_listing Re.fragment_engine Sample.default
            (Sample.corpus [Sample.a_pdf; Sample.both_pdf])
            (py "100") (py "55") [] true _ _
            (result_of Re.fragment_engine Sample.default Sample.both_pdf
               [(Expediente, py "100"); (Sello, py "55")] true
               {| st_size := 30; st_mtime := 9 |}) _ _).
  - vm_compute. reflexivity.
  - left. reflexivity.
Defined.

(** *** The escaped variant *)

Lemma match_lits ignorecase (h : ascii -> ascii) ds post :
  (forall d, Re.chr_eq ignorecase (h d) d = true) ->
  Re.match_here ignorecase (lit_pieces (map h ds)) (ds ++ post) = true.
Proof.
  intros Hh. unfold lit_pieces.
  induction ds as [|d ds IH]; [reflexivity|].
  cbn [map app Re.match_here Re.one Re.atom_ok]. now rewrite Hh, IH.
Qed.

(** A text that has the term in it, up to the case folding configured,
    has a place where the escaped term matches. *)
Lemma folded_occurrence self term_value text pre post :
  fold_case self text = pre ++ fold_case self term_value ++ post ->
  exists pre' ds post',
    text = pre' ++ ds ++ post'
    /\ Re.match_here (negb (case_sensitive self))
         (lit_pieces (fold_case self term_value)) (ds ++ post') = true.
Proof.
  unfold fold_case. destruct (case_sensitive self); cbn [negb].
  - intros ->. exists pre, term_value, post. split; [reflexivity|].
    rewrite <- (map_id term_value) at 1.
    apply match_lits. intros d. apply Ascii.eqb_refl.
  - unfold PyStr.lower. intros E.
    apply map_eq_app in E. destruct E as [pre' [rest [-> [_ E]]]].
    apply map_eq_app in E. destruct E as [ds [post' [-> [E _]]]].
    exists pre', ds, post'. split; [reflexivity|].
    rewrite <- E. apply match_lits. intros d.
    unfold Re.chr_eq. rewrite lower_char_idem. apply Ascii.eqb_refl.
Qed.

Lemma first_raise_none re_search self content search_terms k v :
  first_raise re_search self content search_terms = None ->
  In (k, v) search_terms -> v <> [] ->
  exists found, term_outcome re_search self content v = Return found.
Proof.
  induction search_terms as [|[k' v'] l IH]; [intros _ []|].
  cbn [first_raise]. intros F [[= -> ->] | Hin] Hne.
  - destruct v as [|c v]; [congruence|]. cbn [is_empty negb] in F.
    destruct (term_outcome re_search self content (c :: v)) as [found|e];
      [now exists found | discriminate].
  - apply IH; [|exact Hin | exact Hne].
    destruct (negb (is_empty v')); [|exact F].
    destruct (term_outcome re_search self content v'); [exact F | discriminate].
Qed.

(** X10. Whenever the content matcher returns, it has found whatever
    the file name matcher finds in the same text: a term that occurs in
    it letter for letter (once both are case folded as configured) is
    matched by its escaped variant at the latest, also when the term
    itself is no valid pattern.  (The content matcher does not return
    when [re.search] raises something else than [re.error].) *)
Theorem content_finds_literal_terms re_search self text search_terms ms :
  Re.agrees re_search ->
  search_in_content re_search self text search_terms = Return ms ->
  incl (search_in_filename self text search_terms) ms.
Proof.
  intros Hre E k Hk.
  rewrite search_in_filename_filter in Hk.
  apply in_map_iff in Hk. destruct Hk as [[k' v] [<- H]].
  apply filter_In in H. destruct H as [Hin Hhit]. cbn [fst].
  unfold filename_hit in Hhit. cbn [snd] in Hhit.
  apply andb_true_iff in Hhit. destruct Hhit as [Hne Hsub].
  assert (Hv : v <> []) by (intros ->; discriminate).
  apply contains_iff in Hsub. destruct Hsub as [pre [post Hsub]].
  destruct (@folded_occurrence self v text pre post Hsub)
    as [pre' [ds [post' [-> Hm]]]].
  apply (search_in_content_in _ _ _ _ k' E). exists v.
  split; [exact Hin|]. split; [exact Hv|].
  assert (R : re_search (Re.escape (fold_case self v)) (pre' ++ ds ++ post')
                (negb (case_sensitive self)) = ReMatch)
    by (eapply agrees_match; [exact Hre | apply parse_escape | exact Hm]).
  destruct (@first_raise_none re_search self (pre' ++ ds ++ post')
              search_terms k' v
              (proj1 (search_in_content_returns _ _ _ _ E)) Hin Hv)
    as [[|] T]; [exact T|]. exfalso.
  pose proof (try_patterns_ends re_search (pre' ++ ds ++ post')
                (negb (case_sensitive self)) (patterns (fold_case self v))) as En.
  cbv zeta beta in En. unfold term_outcome in T. rewrite T in En.
  destruct En as [_ Hall].
  destruct (Hall (Re.escape (fold_case self v))) as [N | N];
    [cbn; auto | congruence | congruence].
Qed.

Lemma content_finds_literal_terms_witness :
  incl (search_in_filename Sample.default (py "Tel (+54) 11")
          [(Sello, py "(+54")])
    [Sello].
Proof.
  apply (@content_finds_literal_terms Re.fragment_engine Sample.default
           (py "Tel (+54) 11") [(Sello, py "(+54")] [Sello]).
  - exact fragment_engine_agrees.
  - vm_compute. reflexivity.
Defined.

(** *** The separator variants *)

Lemma read_sep_set sep done :
  sep = "-"%char \/ sep = "/"%char ->
  Re.read (done, Re.PNormal) (sep_set sep)
  = Some ((Re.ASet [Re.CChar sep; Re.CSpace], Re.QOpt) :: done, Re.PNormal).
Proof. intros [-> | ->]; reflexivity. Qed.

Lemma read_sep_variant sep term_search :
  sep = "-"%char \/ sep = "/"%char ->
  plain term_search = true ->
  forall done,
    Re.read (done, Re.PNormal) (PyStr.replace sep (sep_set sep) term_search)
    = Some (rev (map (sep_piece sep) term_search) ++ done, Re.PNormal).
Proof.
  intros Hsep. unfold plain, PyStr.replace.
  induction term_search as [|c t IH]; [reflexivity|].
  cbn [forallb flat_map map rev]. rewrite andb_true_iff, negb_true_iff.
  intros [Hc Ht] done. rewrite read_app, <- app_assoc. cbn [app].
  unfold sep_piece at 2. destruct (Ascii.eqb c sep).
  - rewrite (@read_sep_set sep done Hsep). now apply IH.
  - cbn [Re.read]. rewrite (@step_plain done c Hc). now apply IH.
Qed.

Lemma parse_sep_variant sep term_search :
  sep = "-"%char \/ sep = "/"%char ->
  plain term_search = true ->
  Re.parse (PyStr.replace sep (sep_set sep) term_search)
  = Some (map (sep_piece sep) term_search).
Proof.
  intros Hsep H. unfold Re.parse.
  rewrite (@read_sep_variant sep term_search Hsep H).
  now rewrite app_nil_r, rev_involutive.
Qed.

Lemma chr_eq_refl ignorecase c : Re.chr_eq ignorecase c c = true.
Proof. unfold Re.chr_eq. destruct ignorecase; apply Ascii.eqb_refl. Qed.

Lemma match_relaxed ignorecase sep t s post :
  relaxed sep t s ->
  Re.match_here ignorecase (map (sep_piece sep) t) (s ++ post) = true.
Proof.
  induction 1 as [|c t s _ IH|t s _ IH|w t s Hw _ IH];
    cbn [map app]; [reflexivity| | |].
  - unfold sep_piece at 1. destruct (Ascii.eqb c sep) eqn:E;
      cbn [Re.match_here Re.one Re.atom_ok existsb Re.item_ok].
    + apply Ascii.eqb_eq in E. subst c.
      rewrite chr_eq_refl, IH. cbn. apply orb_true_r.
    + now rewrite chr_eq_refl, IH.
  - unfold sep_piece at 1. rewrite Ascii.eqb_refl.
    cbn [Re.match_here]. now rewrite IH.
  - unfold sep_piece at 1. rewrite Ascii.eqb_refl.
    cbn [Re.match_here Re.one Re.atom_ok existsb Re.item_ok].
    rewrite Hw, IH. cbn. rewrite orb_true_r. apply orb_true_r.
Qed.

(** The patterns of a plain term never make an agreeing engine raise:
    here the first four. *)
Lemma plain_before_space re_search term_search content ignorecase q e :
  Re.agrees re_search ->
  plain term_search = true ->
  In q [ term_search;
         Re.escape term_search;
         PyStr.replace "-" (py "[-\s]?") term_search;
         PyStr.replace "/" (py "[/\s]?") term_search ] ->
  re_search q content ignorecase <> ReRaise e.
Proof.
  intros Hre Hplain [<- | [<- | [<- | [<- | []]]]].
  - eapply agrees_parsed; [exact Hre | now apply parse_plain].
  - eapply agrees_parsed; [exact Hre | apply parse_escape].
  - eapply agrees_parsed; [exact Hre | now apply parse_hyphen_variant].
  - eapply agrees_parsed; [exact Hre|].
    apply (@parse_sep_variant "/"%char term_search); [now right | exact Hplain].
Qed.

(** X11. For a non-empty term without a character that is special in a
    pattern, the content matcher records the field in every content that
    contains the (case folded) term with each hyphen kept, left out or
    replaced by one white space character; and the same with slashes in
    place of hyphens. *)
Theorem separator_variants re_search self k term text pre post sep :
  Re.agrees re_search ->
  sep = "-"%char \/ sep = "/"%char ->
  term <> [] ->
  plain term = true ->
  relaxed sep (fold_case self term) text ->
  search_in_content re_search self (pre ++ text ++ post) [(k, term)]
  = Return [k].
Proof.
  intros Hre Hsep Hne Hplain Hrel.
  assert (Hp : plain (fold_case self term) = true)
    by now rewrite plain_fold_case.
  assert (R : re_search (PyStr.replace sep (sep_set sep) (fold_case self term))
                (pre ++ text ++ post) (negb (case_sensitive self)) = ReMatch).
  { eapply agrees_match; [exact Hre | |apply match_relaxed; exact Hrel].
    now apply parse_sep_variant. }
  apply single_term_hit; [exact Hne|]. unfold term_outcome.
  destruct Hsep as [-> | ->].
  - change (patterns (fold_case self term))
      with ([fold_case self term; Re.escape (fold_case self term)]
              ++ PyStr.replace "-" (sep_set "-") (fold_case self term)
                 :: [PyStr.replace "/" (py "[/\s]?") (fold_case self term);
                     PyStr.replace " " (py "\s+") (fold_case self term)]).
    apply try_patterns_hit; [|exact R].
    intros q Hq e. now apply plain_term_and_escape with (term_search := fold_case self term).
  - change (patterns (fold_case self term))
      with ([fold_case self term; Re.escape (fold_case self term);
             PyStr.replace "-" (py "[-\s]?") (fold_case self term)]
              ++ PyStr.replace "/" (sep_set "/") (fold_case self term)
                 :: [PyStr.replace " " (py "\s+") (fold_case self term)]).
    apply try_patterns_hit; [|exact R].
    intros q Hq e.
    apply plain_before_space with (term_search := fold_case self term);
      [exact Hre | exact Hp|].
    cbn in Hq |- *. tauto.
Qed.

Lemma separator_variants_witness :
  search_in_content Re.fragment_engine Sample.default
    (py "expte 1234 2020 juzgado") [(Expediente, py "1234/2020")]
  = Return [Expediente].
Proof.
  apply (@separator_variants Re.fragment_engine Sample.default Expediente
           (py "1234/2020") (py "1234 2020") (py "expte ") (py " juzgado")
           "/"%char).
  - exact fragment_engine_agrees.
  - right. reflexivity.
  - discriminate.
  - reflexivity.
  - repeat (apply relaxed_same). apply relaxed_space; [reflexivity|].
    repeat (apply relaxed_same). apply relaxed_nil.
Defined.

(** *** The white space variant *)

Lemma read_space_variant term_search :
  plain term_search = true ->
  forall done,
    Re.read (done, Re.PNormal) (PyStr.replace " " (py "\s+") term_search)
    = Some (rev (map space_piece term_search) ++ done, Re.PNormal).
Proof.
  unfold plain, PyStr.replace.
  induction term_search as [|c t IH]; [reflexivity|].
  cbn [forallb flat_map map rev]. rewrite andb_true_iff, negb_true_iff.
  intros [Hc Ht] done. rewrite read_app, <- app_assoc. cbn [app].
  unfold space_piece at 2. destruct (Ascii.eqb c " ").
  - change (Re.read (done, Re.PNormal) (py "\s+"))
      with (Some ((Re.ASpace, Re.QPlus) :: done, Re.PNormal)).
    now apply IH.
  - cbn [Re.read]. rewrite (@step_plain done c Hc). now apply IH.
Qed.

Lemma parse_space_variant term_search :
  plain term_search = true ->
  Re.parse (PyStr.replace " " (py "\s+") term_search)
  = Some (map space_piece term_search).
Proof.
  intros H. unfold Re.parse. rewrite (@read_space_variant term_search H).
  now rewrite app_nil_r, rev_involutive.
Qed.

Lemma many_now ok k s : k s = true -> Re.many ok k s = true.
Proof. intros H. destruct s; cbn [Re.many]; now rewrite H. Qed.

Lemma many_run ok k ws s :
  forallb ok ws = true -> k s = true -> Re.many ok k (ws ++ s) = true.
Proof.
  intros Hws Hk. induction ws as [|w ws IH]; cbn [app].
  - now apply many_now.
  - cbn [forallb] in Hws. apply andb_true_iff in Hws. destruct Hws as [Hw Hws].
    cbn [Re.many]. rewrite Hw, (IH Hws). apply orb_true_r.
Qed.

Lemma match_spaced ignorecase t s post :
  spaced t s ->
  Re.match_here ignorecase (map space_piece t) (s ++ post) = true.
Proof.
  induction 1 as [|c t s _ IH|w ws t s Hw Hws _ IH];
    cbn [map app]; [reflexivity| |].
  - unfold space_piece at 1. destruct (Ascii.eqb c " ") eqn:E;
      cbn [Re.match_here Re.one Re.atom_ok].
    + apply Ascii.eqb_eq in E. subst c. cbn [andb].
      exact (@many_now (Re.atom_ok ignorecase Re.ASpace) _ (s ++ post) IH).
    + now rewrite chr_eq_refl, IH.
  - unfold space_piece at 1. rewrite Ascii.eqb_refl.
    cbn [Re.match_here Re.one Re.atom_ok]. rewrite Hw, <- app_assoc.
    cbn [andb].
    exact (@many_run (Re.atom_ok ignorecase Re.ASpace) _ ws (s ++ post) Hws IH).
Qed.

(** X12. For a non-empty term without a character that is special in a
    pattern, the content matcher records the field in every content that
    contains the (case folded) term with each of its spaces kept or
    replaced by any run of white space: line feeds and tabs between the
    words of a title do not hide it. *)
Theorem whitespace_variant re_search self k term text pre post :
  Re.agrees re_search ->
  term <> [] ->
  plain term = true ->
  spaced (fold_case self term) text ->
  search_in_content re_search self (pre ++ text ++ post) [(k, term)]
  = Return [k].
Proof.
  intros Hre Hne Hplain Hrel.
  assert (Hp : plain (fold_case self term) = true)
    by now rewrite plain_fold_case.
  assert (R : re_search (PyStr.replace " " (py "\s+") (fold_case self term))
                (pre ++ text ++ post) (negb (case_sensitive self)) = ReMatch).
  { eapply agrees_match; [exact Hre | |apply match_spaced; exact Hrel].
    now apply parse_space_variant. }
  apply single_term_hit; [exact Hne|]. unfold term_outcome.
  change (patterns (fold_case self term))
    with ([fold_case self term; Re.escape (fold_case self term);
           PyStr.replace "-" (py "[-\s]?") (fold_case self term);
           PyStr.replace "/" (py "[/\s]?") (fold_case self term)]
            ++ PyStr.replace " " (py "\s+") (fold_case self term) :: []).
  apply try_patterns_hit; [|exact R].
  intros q Hq e.
  now apply plain_before_space with (term_search := fold_case self term).
Qed.

Lemma whitespace_variant_witness :
  search_in_content Re.fragment_engine Sample.default
    (py "caratula juan" ++ [PyStr.newline; " "%char] ++ py "perez c/")
    [(Caratula, py "Juan Perez")]
  = Return [Caratula].
Proof.
  apply (@whitespace_variant Re.fragment_engine Sample.default Caratula
           (py "Juan Perez") (py "juan" ++ [PyStr.newline; " "%char] ++ py "perez")
           (py "caratula ") (py " c/")).
  - exact fragment_engine_agrees.
  - discriminate.
  - reflexivity.
  - repeat (apply spaced_same).
    apply (@spaced_run PyStr.newline [" "%char] (py "perez") (py "perez"));
      [reflexivity | reflexivity|].
    repeat (apply spaced_same). apply spaced_nil.
Defined.

(** *** One term: the mode does not matter *)

Lemma some_eq {A} (a b : A) : Some a = Some b -> a = b.
Proof. now intros [= ->]. Qed.

Section OneTerm.

Variable re_search : engine.
Variable self : PDFSearcher.
Variable k : field.
Variable v : str.

Lemma one_term_matches ms :
  NoDup ms -> incl ms [k] -> ms = [] \/ ms = [k].
Proof.
  intros Hnd Hincl. destruct ms as [|a ms]; [now left|]. right.
  assert (a = k) by (destruct (Hincl a (or_introl eq_refl)) as [<- | []]; reflexivity).
  subst a. destruct ms as [|b ms]; [reflexivity|]. exfalso.
  assert (b = k) by (destruct (Hincl b (or_intror (or_introl eq_refl))) as [<- | []]; reflexivity).
  subst b. inversion Hnd as [|? ? Hnotin _]. apply Hnotin. now left.
Qed.

Lemma one_term_matches_of f match_all :
  matches_of re_search self f [(k, v)] match_all = []
  \/ matches_of re_search self f [(k, v)] match_all = [k].
Proof.
  apply one_term_matches.
  - apply NoDup_nodup.
  - apply (matches_of_keys re_search self f [(k, v)] match_all).
Qed.

(** Matching the content of [f] against the term returns. *)
Let returns f :=
  exists ms,
    search_in_content re_search self (pdf_text self f) [(k, v)] = Return ms.

Lemma one_term_outcomes f match_all :
  returns f ->
  exists ct, content_outcome re_search self f [(k, v)] match_all = Return ct.
Proof.
  intros [ms Hm]. unfold content_outcome.
  destruct (extracts self f [(k, v)] match_all); [now exists ms | now exists []].
Qed.

Lemma one_term_same_matches f :
  returns f ->
  matches_of re_search self f [(k, v)] true
  = matches_of re_search self f [(k, v)] false.
Proof.
  intros [ms Hm].
  destruct (one_term_matches_of f true) as [Et | Et],
    (one_term_matches_of f false) as [Ef | Ef]; rewrite Et, Ef;
    try reflexivity; exfalso.
  - (* nothing under ALL, something under ANY *)
    assert (In k (matches_of re_search self f [(k, v)] false))
      by (rewrite Ef; now left).
    assert (~ In k (matches_of re_search self f [(k, v)] true))
      by (rewrite Et; intros []).
    unfold matches_of, all_matches_of, content_matches_of, content_outcome,
      extracts in *.
    rewrite nodup_In, in_app_iff in *.
    destruct (search_in_filename self (file_name f) [(k, v)]);
      cbn [is_empty orb] in *; rewrite ?Hm in *; tauto.
  - assert (In k (matches_of re_search self f [(k, v)] true))
      by (rewrite Et; now left).
    assert (~ In k (matches_of re_search self f [(k, v)] false))
      by (rewrite Ef; intros []).
    unfold matches_of, all_matches_of, content_matches_of, content_outcome,
      extracts in *.
    rewrite nodup_In, in_app_iff in *.
    destruct (search_in_filename self (file_name f) [(k, v)]) as [|a l] eqn:F;
      cbn [is_empty orb] in *; rewrite ?Hm in *; [tauto|].
    assert (a = k).
    { assert (I : In a (map fst [(k, v)])).
      { apply (search_in_filename_keys self (file_name f) [(k, v)]).
        rewrite F. now left. }
      destruct I as [<- | []]. reflexivity. }
    subst a. apply H0. left. now left.
Qed.

Lemma one_term_contribution f :
  returns f ->
  option_map forget_content (contribution re_search self f [(k, v)] true)
  = option_map forget_content (contribution re_search self f [(k, v)] false).
Proof.
  intros Hret. unfold contribution.
  destruct (@one_term_outcomes f true Hret) as [ct1 ->].
  destruct (@one_term_outcomes f false Hret) as [ct2 ->].
  unfold included, should_include, result_of.
  rewrite (@one_term_same_matches f Hret).
  destruct (one_term_matches_of f false) as [E | E]; rewrite E;
    cbn [map fst forallb length Nat.ltb Nat.leb]; unfold field_mem.
  - destruct (in_dec field_eq_dec k []) as [[]|]; reflexivity.
  - destruct (in_dec field_eq_dec k [k]) as [_|N]; [|exfalso; apply N; now left].
    cbn [andb]. destruct (file_stat f); reflexivity.
Qed.

Lemma one_term_scan pdf_files :
  (forall f, In f pdf_files -> returns f) ->
  forall results_all results_any,
    map forget_content results_all = map forget_content results_any ->
    map forget_content (snd (scan re_search self pdf_files [(k, v)] true results_all))
    = map forget_content (snd (scan re_search self pdf_files [(k, v)] false results_any)).
Proof.
  induction pdf_files as [|f rest IH]; intros Hret ra rb E; [exact E|].
  assert (L : length ra = length rb).
  { rewrite <- (length_map forget_content ra), E. apply length_map. }
  destruct (cap_reached self ra) eqn:Ca.
  - rewrite !scan_break; [exact E | |exact Ca].
    unfold cap_reached in *. now rewrite <- L.
  - rewrite !scan_cons; [| |exact Ca].
    2:{ unfold cap_reached in *. now rewrite <- L. }
    cbn [snd]. apply IH; [intros g Hg; apply Hret; now right|].
    pose proof (@one_term_contribution f (Hret f (or_introl eq_refl))) as C.
    destruct (contribution re_search self f [(k, v)] true) as [r1|],
      (contribution re_search self f [(k, v)] false) as [r2|];
      cbn [option_map append_contribution] in *; try discriminate; [|exact E].
    apply some_eq in C. rewrite !map_app, E. cbn [map]. now rewrite C.
Qed.

End OneTerm.

Lemma key_ltb_forget a b :
  key_ltb (forget_content a) (forget_content b) = key_ltb a b.
Proof. reflexivity. Qed.

Lemma insert_desc_forget x l :
  map forget_content (insert_desc x l)
  = insert_desc (forget_content x) (map forget_content l).
Proof.
  induction l as [|y l IH]; cbn [insert_desc map]; [reflexivity|].
  rewrite key_ltb_forget. destruct (key_ltb x y); cbn [map]; [|reflexivity].
  now rewrite IH.
Qed.

Lemma sort_results_forget l :
  map forget_content (sort_results l) = sort_results (map forget_content l).
Proof.
  induction l as [|x l IH]; [reflexivity|].
  cbn [sort_results fold_right map]. rewrite insert_desc_forget.
  fold (sort_results l). fold (sort_results (map forget_content l)).
  now rewrite IH.
Qed.

(** X13. When a query has exactly one term and matching it against the
    text of no listed file raises, the mode does not change the answer:
    under [match_all] and without it the call returns the same files in
    the same order, with the same matches and scores; only the breakdown
    [content_matches] can differ.  (A term on which [re.search] raises
    something else than [re.error] is another matter: ANY keeps a file
    matched by its name where ALL skips it.) *)
Theorem one_term_mode_irrelevant re_search self fs expediente sello caratula :
  length (search_terms_of expediente sello caratula) = 1 ->
  (forall f,
      In f (pdf_files_of self fs) ->
      exists ms,
        search_in_content re_search self (pdf_text self f)
          (search_terms_of expediente sello caratula) = Return ms) ->
  match snd (search_pdfs re_search self fs expediente sello caratula true),
        snd (search_pdfs re_search self fs expediente sello caratula false)
  with
  | Return out_all, Return out_any =>
      map forget_content out_all = map forget_content out_any
  | Raise e_all, Raise e_any => e_all = e_any
  | _, _ => False
  end.
Proof.
  intros Hone Hret.
  destruct (search_terms_of expediente sello caratula) as [|[k v] [|? ?]] eqn:T;
    try discriminate.
  assert (Hne : is_empty (search_terms_of expediente sello caratula) = false)
    by now rewrite T.
  destruct (root_exists fs) eqn:Hroot.
  - rewrite !search_pdfs_scan by assumption. cbn [snd].
    rewrite !sort_results_forget, T. f_equal.
    apply one_term_scan; [exact Hret | reflexivity].
  - rewrite !search_pdfs_no_root by assumption. reflexivity.
Qed.

Lemma one_term_mode_irrelevant_witness :
  match snd (search_pdfs Re.fragment_engine Sample.default
               (Sample.corpus [Sample.a_pdf; Sample.b_pdf])
               (py "100") [] [] true),
        snd (search_pdfs Re.fragment_engine Sample.default
               (Sample.corpus [Sample.a_pdf; Sample.b_pdf])
               (py "100") [] [] false)
  with
  | Return out_all, Return out_any =>
      map forget_content out_all = map forget_content out_any
  | Raise e_all, Raise e_any => e_all = e_any
  | _, _ => False
  end.
Proof.
  apply one_term_mode_irrelevant; [reflexivity|].
  intros f [<- | [<- | []]]; eexists; vm_compute; reflexivity.
Defined.

(** *** The route *)

Lemma search_route_strings re_search self fs data e s c :
  dict_get data (py "expediente") (JStr []) = JStr e ->
  dict_get data (py "sello") (JStr []) = JStr s ->
  dict_get data (py "caratula") (JStr []) = JStr c ->
  search_route re_search self fs data
  = match search_pdfs re_search self fs e s c
            (truthy (dict_get data (py "match_all") (JBool false))) with
    | (tr, Return results) =>
        (tr, SearchOk results (length results) (JStr e) (JStr s) (JStr c)
               (dict_get data (py "match_all") (JBool false)))
    | (tr, Raise ex) => (tr, SearchFailed (Raised ex))
    end.
Proof. unfold search_route. now intros -> -> ->. Qed.

Lemma search_route_not_strings re_search self fs data :
  is_str (dict_get data (py "expediente") (JStr []))
  && is_str (dict_get data (py "sello") (JStr []))
  && is_str (dict_get data (py "caratula") (JStr [])) = false ->
  search_route re_search self fs data = ([], SearchFailed AttributeError).
Proof.
  unfold search_route.
  destruct (dict_get data (py "expediente") (JStr []));
    destruct (dict_get data (py "sello") (JStr []));
    destruct (dict_get data (py "caratula") (JStr []));
    cbn [is_str andb]; (discriminate || reflexivity).
Qed.

(** X14. For a request whose body is a JSON object, the route [/search]
    always answers, with status 200 or 500.  It answers 200 exactly when
    the three terms are strings and either none is left after stripping
    or the search root exists; then [total] is the number of results, at
    most [max_results] when that is not negative, and [search_params]
    are the values of the request, the defaults for the missing keys
    included.  A term that is not a string gives 500 before the file
    system is touched. *)
Theorem search_route_answers re_search self fs data :
  let expediente := dict_get data (py "expediente") (JStr []) in
  let sello := dict_get data (py "sello") (JStr []) in
  let caratula := dict_get data (py "caratula") (JStr []) in
  let match_all := dict_get data (py "match_all") (JBool false) in
  let resp := snd (search_route re_search self fs data) in
  (status_code resp = 200 \/ status_code resp = 500)
  /\ (status_code resp = 200
      <-> is_str expediente && is_str sello && is_str caratula = true
          /\ (is_empty (search_terms_of (str_of expediente) (str_of sello)
                          (str_of caratula)) = true
              \/ root_exists fs = true))
  /\ (forall results total pe ps pc pm,
         resp = SearchOk results total pe ps pc pm ->
         total = length results
         /\ pe = expediente /\ ps = sello /\ pc = caratula /\ pm = match_all
         /\ ((0 <= max_results self)%Z ->
             (Z.of_nat total <= max_results self)%Z))
  /\ (is_str expediente && is_str sello && is_str caratula = false ->
      search_route re_search self fs data = ([], SearchFailed AttributeError)).
Proof.
  intros expediente sello caratula match_all resp.
  assert (Hbad : is_str expediente && is_str sello && is_str caratula = false ->
                 search_route re_search self fs data
                 = ([], SearchFailed AttributeError))
    by apply search_route_not_strings.
  destruct (is_str expediente && is_str sello && is_str caratula) eqn:Hstr.
  2:{ subst resp. rewrite (Hbad eq_refl). cbn [snd status_code].
      split; [now right|]. split; [|split; [|intros H; first [discriminate H | reflexivity]]].
      - split; [discriminate | intros [[=] _]].
      - discriminate. }
  assert (He : expediente = JStr (str_of expediente))
    by (destruct expediente; try discriminate; reflexivity).
  assert (Hs : sello = JStr (str_of sello))
    by (destruct expediente, sello; try discriminate; reflexivity).
  assert (Hc : caratula = JStr (str_of caratula))
    by (destruct expediente, sello, caratula; try discriminate; reflexivity).
  pose proof (@search_route_strings re_search self fs data
                (str_of expediente) (str_of sello) (str_of caratula)
                He Hs Hc) as R.
  fold match_all in R. rewrite <- He, <- Hs, <- Hc in R.
  subst resp. rewrite R. clear R.
  set (e := str_of expediente) in *. set (s := str_of sello) in *.
  set (c := str_of caratula) in *.
  destruct (is_empty (search_terms_of e s c)) eqn:Hne.
  - rewrite search_pdfs_no_terms by assumption. cbn [snd status_code].
    split; [now left|]. split; [|split; [|intros H; first [discriminate H | reflexivity]]].
    + split; [intros _; split; [reflexivity | now left] | reflexivity].
    + intros results total pe ps pc pm [= <- <- <- <- <- <-].
      repeat split; try reflexivity. cbn. lia.
  - destruct (root_exists fs) eqn:Hroot.
    + rewrite search_pdfs_scan by assumption. cbn [snd status_code].
      split; [now left|]. split; [|split; [|intros H; first [discriminate H | reflexivity]]].
      * split; [intros _; split; [reflexivity | now right] | reflexivity].
      * intros results total pe ps pc pm [= <- <- <- <- <- <-].
        repeat split; try reflexivity. intros Hmax.
        rewrite (Permutation_length (sort_results_perm _)).
        apply scan_length; [exact Hmax | cbn; lia].
    + rewrite search_pdfs_no_root by assumption. cbn [snd status_code].
      split; [now right|]. split; [|split; [|intros H; first [discriminate H | reflexivity]]].
      * split; [discriminate | intros [_ [[=] | [=]]]].
      * discriminate.
Qed.

(** *** What a call touches *)

Lemma process_file_touches re_search self f search_terms match_all ev :
  In ev (fst (process_file re_search self f search_terms match_all)) ->
  ev = EvOpenPdf (file_path f) \/ ev = EvStat (file_path f).
Proof.
  rewrite process_file_eq. unfold open_events.
  destruct (content_outcome _ _ _ _ _);
    [destruct (included _ _ _ _ _); [destruct (file_stat f)|]|];
    destruct (extracts _ _ _ _); cbn; intuition auto.
Qed.

Lemma scan_touches re_search self search_terms match_all pdf_files :
  forall results ev,
    In ev (fst (scan re_search self pdf_files search_terms match_all results)) ->
    exists f, In f pdf_files
              /\ (ev = EvOpenPdf (file_path f) \/ ev = EvStat (file_path f)).
Proof.
  induction pdf_files as [|f rest IH]; intros results ev Hev; [destruct Hev|].
  destruct (cap_reached self results) eqn:Hcap.
  - rewrite scan_break in Hev by assumption. destruct Hev.
  - rewrite scan_cons in Hev by assumption. cbn [fst] in Hev.
    apply in_app_or in Hev. destruct Hev as [Hev | Hev].
    + exists f. split; [now left|]. eapply process_file_touches. exact Hev.
    + destruct (IH _ _ Hev) as [g [Hg Hor]]. exists g. split; [now right | exact Hor].
Qed.

(** X15. Whatever a call does to the file system is: test that the
    search root exists, list it as configured, open PDFs of that listing
    and [stat()] files of that listing.  No other path is opened or
    examined, whether the call returns or raises. *)
Theorem search_touches_only_the_listing re_search self fs expediente sello
    caratula match_all ev :
  In ev (fst (search_pdfs re_search self fs expediente sello caratula match_all)) ->
  ev = EvExists
  \/ ev = EvGlob (search_subdirectories self)
  \/ exists f,
       In f (if search_subdirectories self then rglob_pdf fs else glob_pdf fs)
       /\ (ev = EvOpenPdf (file_path f) \/ ev = EvStat (file_path f)).
Proof.
  destruct (is_empty (search_terms_of expediente sello caratula)) eqn:Hne.
  { rewrite search_pdfs_no_terms by assumption. intros []. }
  destruct (root_exists fs) eqn:Hroot.
  - rewrite search_pdfs_scan by assumption. cbn [fst].
    intros [<- | [<- | Hev]]; [now left | right; now left|].
    right. right. eapply scan_touches. exact Hev.
  - rewrite search_pdfs_no_root by assumption.
    intros [<- | []]. now left.
Qed.

Lemma search_touches_only_the_listing_witness :
  EvStat (file_path Sample.a_pdf) = EvExists
  \/ EvStat (file_path Sample.a_pdf) = EvGlob true
  \/ exists f,
       In f [Sample.a_pdf; Sample.b_pdf]
       /\ (EvStat (file_path Sample.a_pdf) = EvOpenPdf (file_path f)
           \/ EvStat (file_path Sample.a_pdf) = EvStat (file_path f)).
Proof.
  apply (@search_touches_only_the_listing Re.fragment_engine Sample.default
           (Sample.corpus [Sample.a_pdf; Sample.b_pdf])
           (py "100") [] [] false).
  vm_compute. right. right. left. reflexivity.
Defined.
